(** * supercrawler: the URL queue (lib/DbUrlList.js) and the crawl engine
      (lib/Crawler.js), embedded as executable Rocq definitions.

    Promises are modelled by their settlement: a promise-returning call is a
    function from the state it runs in to a completion and the state it
    leaves.  Collaborators outside the repository (the SQL store behind
    Sequelize, the HTTP client, the robots parser, the URL parser, the
    digest) enter as explicit store operations or as oracles. *)

From Stdlib Require Import ZArith List String Ascii Bool Lia.
From stdpp Require Import base tactics option list strings gmap.
Import ListNotations.

Local Open Scope string_scope.
Local Open Scope Z_scope.
Local Open Scope list_scope.

(* ------------------------------------------------------------------ *)
(** ** JavaScript values, errors and completions                        *)
(* ------------------------------------------------------------------ *)

(** The JavaScript values that reach the configuration options.  A
    function value is opaque: what a call of it returns is supplied by
    the caller of the model. *)
Inductive JsValue : Type :=
| JsUndefined
| JsNull
| JsBool (b : bool)
| JsNumber (n : Z)
| JsNaN
| JsString (s : string)
| JsFunction.

(** ToBoolean: the falsy values are undefined, null, false, 0, NaN and
    the empty string. *)
Definition truthy (v : JsValue) : bool :=
  match v with
  | JsUndefined | JsNull | JsNaN => false
  | JsBool b => b
  | JsNumber n => negb (n =? 0)
  | JsString s => negb (String.eqb s EmptyString)
  | JsFunction => true
  end.


(** [a || b] *)
Definition js_or (a b : JsValue) : JsValue := if truthy a then a else b.

(** Error classes told apart by the typed catch filters.  The first four
    are the classes of lib/error.js; the others are the built-in and
    store errors the code meets. *)
Inductive ErrorClass : Type :=
| RobotsNotAllowedError
| HttpError
| RequestError
| HandlersError
| RangeError
| TypeError
| UniqueConstraintError
| ValidationError
| PlainError.

Definition ErrorClass_eqb (a b : ErrorClass) : bool :=
  match a, b with
  | RobotsNotAllowedError, RobotsNotAllowedError
  | HttpError, HttpError
  | RequestError, RequestError
  | HandlersError, HandlersError
  | RangeError, RangeError
  | TypeError, TypeError
  | UniqueConstraintError, UniqueConstraintError
  | ValidationError, ValidationError
  | PlainError, PlainError => true
  | _, _ => false
  end.

Record JsError : Type := mkError {
  e_class : ErrorClass;
  e_message : string;
  e_statusCode : option Z   (* only HttpError objects get this property *)
}.

(** How a call ends: a promise that fulfils, a promise that rejects, or an
    exception thrown before any promise was returned. *)
Inductive Completion (A : Type) : Type :=
| Fulfilled (a : A)
| Rejected (e : JsError)
| Thrown (e : JsError).
Arguments Fulfilled {A} a.
Arguments Rejected {A} e.
Arguments Thrown {A} e.

(** Decimal rendering of a number inside a template string. *)
Definition digit_of (n : Z) : ascii := ascii_of_N (48 + Z.to_N n).

Fixpoint decimal_digits (fuel : nat) (n : Z) (acc : string) : string :=
  match fuel with
  | O => acc
  | S fuel' =>
      let acc' := String (digit_of (n mod 10)) acc in
      if n / 10 =? 0 then acc' else decimal_digits fuel' (n / 10) acc'
  end.

Definition string_of_Z (n : Z) : string :=
  if n <? 0 then "-" +:+ decimal_digits (Z.to_nat (- n)) (- n) EmptyString
  else decimal_digits (S (Z.to_nat n)) n EmptyString.

(* ------------------------------------------------------------------ *)
(** ** Url (lib/Url.js)                                                  *)
(* ------------------------------------------------------------------ *)

(** Modelled from the spec: lib/Url.js is not among the sources.  The
    spec's UrlRecord has a required [url] and optional [statusCode],
    [errorCode] and [errorMessage]; an option left out of [new Url({...})]
    reads back as null. *)
Record Url : Type := mkUrl {
  getUrl : string;
  getStatusCode : option Z;
  getErrorCode : option string;
  getErrorMessage : option string
}.

(** [new Url({ url: u })] *)
Definition Url_of (u : string) : Url := mkUrl u None None None.

(* ------------------------------------------------------------------ *)
(** ** DbUrlList (lib/DbUrlList.js)                                      *)
(* ------------------------------------------------------------------ *)

Module DbUrlList.

(** A stored row of the url table: the columns of the schema defined in
    the constructor, and the store's auto-increment [id].  A column
    holds [None] when it is NULL. *)
Record Row : Type := mkRow {
  id : Z;
  urlHash : string;
  url : string;
  statusCode : option Z;
  errorCode : option string;
  errorMessage : option string;
  numErrors : Z;
  crawled : option bool
}.

(** The object literal that [_makeUrlRow] and [upsert] hand to the
    store: six properties, and no [crawled]. *)
Record Values : Type := mkValues {
  v_urlHash : string;
  v_url : string;
  v_statusCode : option Z;
  v_errorCode : option string;
  v_errorMessage : option string;
  v_numErrors : Z
}.

Record Table : Type := mkTable {
  rows : list Row;
  nextId : Z
}.


Definition has_hash (h : string) (r : Row) : bool := String.eqb (urlHash r) h.

(** *** The store operations the code calls.

    These follow the SQL meaning of the Sequelize calls; the table is
    the one [_getUrlTable] resolves with after its idempotent schema
    sync. *)


Definition is_uncrawled (r : Row) : bool :=
  match crawled r with Some false => true | _ => false end.

Definition min_id_row (best : option Row) (r : Row) : option Row :=
  match best with
  | None => Some r
  | Some b => if id r <? id b then Some r else Some b
  end.

(** [urlTable.findOne({ where: { crawled: false }, order: ['id', 'ASC'] })]:
    the row of least id among those whose crawled column is false. *)
Definition findOne_uncrawled (t : Table) : option Row :=
  fold_left min_id_row (List.filter is_uncrawled (rows t)) None.

Section Store.

(** The schema declares the crawled column NOT NULL and gives it no
    default, and the rows the code writes name no value for it.  What
    the store does with such a new row is a matter of the store:
    [None] when it rejects the row, [Some d] when it stores the row
    with [d] in the column ([Some None] leaves it NULL). *)
Variable missing_crawled : option (option bool).

Definition notNull_violation : JsError :=
  mkError ValidationError "notNull Violation: url.crawled cannot be null" None.

Definition unique_violation : JsError :=
  mkError UniqueConstraintError "Validation error" None.

Definition row_of_values (i : Z) (d : option bool) (v : Values) : Row :=
  {| id := i;
     urlHash := v_urlHash v;
     url := v_url v;
     statusCode := v_statusCode v;
     errorCode := v_errorCode v;
     errorMessage := v_errorMessage v;
     numErrors := v_numErrors v;
     crawled := d |}.

(** [urlTable.create(values)]: the unique index on urlHash rejects a
    second row with the same hash; otherwise the values are stored under
    the next id. *)
Definition create (v : Values) (t : Table) : Completion Row * Table :=
  match missing_crawled with
  | None => (Rejected notNull_violation, t)
  | Some d =>
      if existsb (has_hash (v_urlHash v)) (rows t) then (Rejected unique_violation, t)
      else
        let r := row_of_values (nextId t) d v in
        (Fulfilled r, {| rows := rows t ++ [r]; nextId := nextId t + 1 |})
  end.



End Store.

Definition set_crawled (r : Row) : Row :=
  {| id := id r; urlHash := urlHash r; url := url r; statusCode := statusCode r;
     errorCode := errorCode r; errorMessage := errorMessage r;
     numErrors := numErrors r; crawled := Some true |}.

(** [urlTable.update({ crawled: true }, { where: { id: i } })]: sets the
    column on every row the where clause selects and reports how many
    rows that were.  The where clause names the id only. *)
Definition update_crawled_where_id (i : Z) (t : Table) : Z * Table :=
  (Z.of_nat (length (List.filter (fun r => id r =? i) (rows t))),
   {| rows := map (fun r => if id r =? i then set_crawled r else r) (rows t);
      nextId := nextId t |}).

Section WithDigest.

(** [sha1.copy().update(s).digest('hex')] *)
Variable sha1_hex : string -> string.

Variable missing_crawled : option (option bool).

Definition _makeUrlRow (u : Url) : Values :=
  let urlHash := sha1_hex (getUrl u) in
  {| v_urlHash := urlHash;
     v_url := getUrl u;
     v_statusCode := getStatusCode u;
     v_errorCode := getErrorCode u;
     v_errorMessage := getErrorMessage u;
     v_numErrors := match getErrorCode u with None => 0 | Some _ => 1 end |}.

(** The promise fulfils with the created row, or with [true] ([None]
    here) when the unique constraint fired; any other rejection passes
    through. *)
Definition insertIfNotExists (u : Url) (t : Table) : Completion (option Row) * Table :=
  match create missing_crawled (_makeUrlRow u) t with
  | (Fulfilled r, t') => (Fulfilled (Some r), t')
  | (Rejected e, t') =>
      if ErrorClass_eqb (e_class e) UniqueConstraintError
      then (Fulfilled None, t')
      else (Rejected e, t')
  | (Thrown e, t') => (Thrown e, t')
  end.


End WithDigest.

Definition Url_of_row (r : Row) : Url :=
  {| getUrl := url r;
     getStatusCode := statusCode r;
     getErrorCode := errorCode r;
     getErrorMessage := errorMessage r |}.

Definition exhausted : JsError :=
  mkError RangeError "The URL list has been exhausted." None.

(** *** getNextUrl as the store sees it.

    One call is a sequence of store round trips; between two round
    trips other callers may run.  [Selecting] is about to issue the
    findOne, [Updating r] holds the selected record and is about to
    issue the update, [Settled] has returned. *)
Inductive Call : Type :=
| Selecting
| Updating (urlRecord : Row)
| Settled (result : Completion Url).

Definition call_step (c : Call) (t : Table) : Call * Table :=
  match c with
  | Selecting =>
      match findOne_uncrawled t with
      | None => (Settled (Rejected exhausted), t)
      | Some urlRecord => (Updating urlRecord, t)
      end
  | Updating urlRecord =>
      let '(numAffected, t') := update_crawled_where_id (id urlRecord) t in
      if numAffected =? 0 then (Selecting, t')
      else (Settled (Fulfilled (Url_of_row urlRecord)), t')
  | Settled _ => (c, t)
  end.

(** A single caller running alone; [fuel] bounds the store round trips. *)
Fixpoint getNextUrl_from (fuel : nat) (c : Call) (t : Table) : option (Completion Url) * Table :=
  match c with
  | Settled r => (Some r, t)
  | _ =>
      match fuel with
      | O => (None, t)
      | S fuel' => let '(c', t') := call_step c t in getNextUrl_from fuel' c' t'
      end
  end.

Definition getNextUrl (fuel : nat) (t : Table) : option (Completion Url) * Table :=
  getNextUrl_from fuel Selecting t.

(** Several callers over one table: a schedule names, round trip by
    round trip, the caller whose store operation runs next. *)
Definition step_caller (k : nat) (cs : list Call) (t : Table) : list Call * Table :=
  match cs !! k with
  | None => (cs, t)
  | Some c => let '(c', t') := call_step c t in (<[k := c']> cs, t')
  end.

Fixpoint run_schedule (sched : list nat) (cs : list Call) (t : Table) : list Call * Table :=
  match sched with
  | [] => (cs, t)
  | k :: sched' => let '(cs', t') := step_caller k cs t in run_schedule sched' cs' t'
  end.

(** *** The bulk insertion, the schema sync, and calls in sequence *)

Section MoreOperations.

Variable sha1_hex : string -> string.

Variable missing_crawled : option (option bool).







End MoreOperations.

(** [_getUrlTable]: [synced] is the flag [_urlTableSynced] the call finds,
    [sync] how [urlTable.sync()] ends if it is called.  Gives how the
    returned promise settles, the flag the call leaves, and whether sync
    was called. *)
Definition _getUrlTable (sync : option JsError) (synced : bool) : Completion unit * bool * bool :=
  let syncProm :=
    if negb synced then
      match sync with
      | None => Fulfilled tt
      | Some e => Rejected e
      end
    else Fulfilled tt in
  (syncProm, true, negb synced).

(** Calls of [_getUrlTable] on one instance, one after the other: for
    each call how it settled and whether it called sync. *)
Fixpoint getUrlTable_calls (syncs : list (option JsError)) (synced : bool)
  : list (Completion unit * bool) :=
  match syncs with
  | [] => []
  | sync :: syncs' =>
      let '(result, synced', called) := _getUrlTable sync synced in
      (result, called) :: getUrlTable_calls syncs' synced'
  end.



End DbUrlList.

(* ------------------------------------------------------------------ *)
(** ** Crawler (lib/Crawler.js)                                          *)
(* ------------------------------------------------------------------ *)

Module Crawler.

Definition DEFAULT_INTERVAL : JsValue := JsNumber 1000.
Definition DEFAULT_CONCURRENT_REQUESTS_LIMIT : JsValue := JsNumber 5.
Definition DEFAULT_USER_AGENT : JsValue :=
  JsString "Mozilla/5.0 (compatible; supercrawler/1.0; +https://github.com/brendonboshell/supercrawler)".

(** *** Handlers *)

Record CrawlContext : Type := mkContext {
  ctx_body : string;
  ctx_url : string;
  ctx_contentType : string
}.

(** What calling a handler gives: a returned (or promised) value, which
    is an array of links or something else, or a failure. *)
Inductive HandlerValue : Type :=
| AnArray (links : list string)
| NotAnArray.

Inductive HandlerResult : Type :=
| Returns (v : HandlerValue)
| Fails (e : JsError).

Definition Handler : Type := CrawlContext -> HandlerResult.

(** The first argument of [addHandler]: a string or an array of strings. *)
Inductive Matcher : Type :=
| MString (s : string)
| MArray (l : list string).

Record HandlerObj : Type := mkHandlerObj {
  h_contentType : Matcher;
  h_handler : Handler
}.

(** *** Construction and accessors *)

(** The options object; a property left out is [JsUndefined].  The
    [urlList] and [request] options are objects and live in the
    environment below; [robotsCacheTime] only sets the cache's time to
    live, which the cache model does not follow. *)
Record Opts : Type := mkOpts {
  interval : JsValue;
  concurrentRequestsLimit : JsValue;
  userAgent : JsValue;
  robotsIgnoreServerError : JsValue;
  robotsEnabled : JsValue;
  maxContentLength : JsValue
}.

Definition empty_opts : Opts :=
  mkOpts JsUndefined JsUndefined JsUndefined JsUndefined JsUndefined JsUndefined.

Record t : Type := mkCrawler {
  _interval : JsValue;
  _concurrentRequestsLimit : JsValue;
  _userAgent : JsValue;
  _handlers : list HandlerObj;
  _outstandingRequests : Z;
  _robotsIgnoreServerError : JsValue;
  _robotsEnabled : bool;
  _maxContentLength : JsValue;
  _started : bool;                  (* unset until start() *)
  _lastRequestDate : option Z       (* time value in ms; unset until the first request *)
}.

Definition strictly_not_false (v : JsValue) : bool :=
  match v with JsBool false => false | _ => true end.

(** [new Crawler(opts)]; [None] is a call without argument. *)
Definition new (opts : option Opts) : t :=
  let opts := match opts with None => empty_opts | Some o => o end in
  {| _interval := js_or (interval opts) DEFAULT_INTERVAL;
     _concurrentRequestsLimit := js_or (concurrentRequestsLimit opts) DEFAULT_CONCURRENT_REQUESTS_LIMIT;
     _userAgent := js_or (userAgent opts) DEFAULT_USER_AGENT;
     _handlers := [];
     _outstandingRequests := 0;
     _robotsIgnoreServerError := js_or (robotsIgnoreServerError opts) (JsBool false);
     _robotsEnabled := strictly_not_false (robotsEnabled opts);
     _maxContentLength := js_or (maxContentLength opts) (JsNumber 0);
     _started := false;
     _lastRequestDate := None |}.

(** [produced] is what the interval function returns when it is called. *)
Definition getInterval (c : t) (produced : JsValue) : JsValue :=
  let interval := _interval c in
  match interval with
  | JsFunction => produced
  | _ => interval
  end.

Definition setInterval (interval : JsValue) (c : t) : t :=
  {| _interval := interval;
     _concurrentRequestsLimit := _concurrentRequestsLimit c;
     _userAgent := _userAgent c;
     _handlers := _handlers c;
     _outstandingRequests := _outstandingRequests c;
     _robotsIgnoreServerError := _robotsIgnoreServerError c;
     _robotsEnabled := _robotsEnabled c;
     _maxContentLength := _maxContentLength c;
     _started := _started c;
     _lastRequestDate := _lastRequestDate c |}.

Definition getConcurrentRequestsLimit (c : t) : JsValue := _concurrentRequestsLimit c.

Definition push_handler (ho : HandlerObj) (c : t) : t :=
  {| _interval := _interval c;
     _concurrentRequestsLimit := _concurrentRequestsLimit c;
     _userAgent := _userAgent c;
     _handlers := _handlers c ++ [ho];
     _outstandingRequests := _outstandingRequests c;
     _robotsIgnoreServerError := _robotsIgnoreServerError c;
     _robotsEnabled := _robotsEnabled c;
     _maxContentLength := _maxContentLength c;
     _started := _started c;
     _lastRequestDate := _lastRequestDate c |}.

(** The two ways [addHandler] is called. *)
Inductive AddHandlerArgs : Type :=
| OneArgument (handler : Handler)
| TwoArguments (contentType : Matcher) (handler : Handler).

(** The body of [addHandler] past the arity test. *)
Definition addHandler_push (contentType : Matcher) (handler : Handler) (c : t) : t * bool :=
  (push_handler {| h_contentType := contentType; h_handler := handler |} c, true).

Definition addHandler (args : AddHandlerArgs) (c : t) : t * bool :=
  match args with
  | OneArgument handler => addHandler_push (MString "*") handler c
  | TwoArguments contentType handler => addHandler_push contentType handler c
  end.

(** *** Matching a handler against a content type *)

(** An array put in string position is joined with commas. *)
Definition matcher_to_string (m : Matcher) : string :=
  match m with
  | MString s => s
  | MArray l => String.concat "," l
  end.

Definition array_includes (m : Matcher) (contentType : string) : bool :=
  match m with
  | MString _ => false
  | MArray l => existsb (String.eqb contentType) l
  end.

Definition is_wildcard (m : Matcher) : bool :=
  match m with
  | MString s => String.eqb s "*"
  | MArray _ => false
  end.

(** The [match] flag computed in [_fireHandlers]:
    [(a).indexOf(b) === 0] says that [b] starts [a]. *)
Definition handler_matches (m : Matcher) (contentType : string) : bool :=
  if is_wildcard m then true
  else if array_includes m contentType then true
  else if String.prefix (matcher_to_string m +:+ "/") (contentType +:+ "/") then true
  else false.

Definition is_line_terminator (a : ascii) : bool :=
  Ascii.eqb a "010"%char || Ascii.eqb a "013"%char.

Fixpoint no_line_terminator (s : string) : bool :=
  match s with
  | EmptyString => true
  | String a s' => negb (is_line_terminator a) && no_line_terminator s'
  end.

(** [contentType.replace(/;.*$/g, '')]: cut at the first semicolon from
    which the text runs to its end without a line terminator. *)
Fixpoint strip_parameters (s : string) : string :=
  match s with
  | EmptyString => EmptyString
  | String a s' =>
      if Ascii.eqb a ";"%char && no_line_terminator s' then EmptyString
      else String a (strip_parameters s')
  end.

(** *** The world a crawl runs in *)

Record Response : Type := mkResponse {
  status : Z;
  header_content_type : option string;
  header_location : option string;
  data : string
}.

Inductive AxiosOutcome : Type :=
| AxiosRejects (message : string)
| AxiosResolves (response : option Response).

Inductive Event : Type :=
| crawlurl (url : string)
| redirect (url : string) (location : option string)
| links_found (url : string) (links : list string)
| httpError (err : JsError) (url : string)
| handlersError (err : JsError)
| crawledurl (url : string) (errorCode : option string) (statusCode : option Z)
             (errorMessage : option string).

(** The collaborators.  [urlList_*] is the queue behind [getUrlList()],
    seen through whether an insertion fails; the bulk operation is
    optional. *)
Record Env : Type := mkEnv {
  axios_get : string -> bool -> AxiosOutcome;      (* url, followRedirect *)
  robots_url_of : string -> option string;         (* None: new URL(url) throws *)
  robots_isAllowed : string -> string -> string -> bool;  (* robots url, robots text, url *)
  mime_lookup : string -> option string;           (* None: false *)
  url_resolve : string -> string -> string;
  urlList_insertIfNotExists : Url -> option JsError;
  urlList_insertIfNotExistsBulk : option (list Url -> option JsError)
}.

(** What a crawl changes: the robots cache, and the logs of requests
    sent, urls handed to the queue, events emitted and handlers called
    (by position in the registry), each in order of occurrence. *)
Record World : Type := mkWorld {
  robotsCache : gmap string string;
  requests : list (string * bool);
  inserted : list Url;
  emitted : list Event;
  invoked : list nat
}.

Definition empty_world : World := mkWorld ∅ [] [] [] [].

Definition cache_set (k v : string) (w : World) : World :=
  mkWorld (<[k := v]> (robotsCache w)) (requests w) (inserted w) (emitted w) (invoked w).
Definition log_request (u : string) (follow : bool) (w : World) : World :=
  mkWorld (robotsCache w) (requests w ++ [(u, follow)]) (inserted w) (emitted w) (invoked w).
Definition log_inserted (us : list Url) (w : World) : World :=
  mkWorld (robotsCache w) (requests w) (inserted w ++ us) (emitted w) (invoked w).
Definition emit (ev : Event) (w : World) : World :=
  mkWorld (robotsCache w) (requests w) (inserted w) (emitted w ++ [ev]) (invoked w).
Definition log_invoked (i : nat) (w : World) : World :=
  mkWorld (robotsCache w) (requests w) (inserted w) (emitted w) (invoked w ++ [i]).

(** *** Promise chains *)

Definition M (A : Type) : Type := World -> Completion A * World.

Definition resolve {A} (a : A) : M A := fun w => (Fulfilled a, w).
Definition reject {A} (e : JsError) : M A := fun w => (Rejected e, w).
Definition throw {A} (e : JsError) : M A := fun w => (Thrown e, w).

(** A callback runs inside the promise machinery: what it throws
    rejects the promise the chain step returned. *)
Definition in_callback {A} (r : Completion A * World) : Completion A * World :=
  match r with
  | (Thrown e, w) => (Rejected e, w)
  | _ => r
  end.

(** [p.then(f)]; when the expression [p] itself threw there is no
    promise to chain on and the exception goes on. *)
Definition then_ {A B} (f : A -> M B) (p : M A) : M B :=
  fun w =>
    match p w with
    | (Fulfilled a, w') => in_callback (f a w')
    | (Rejected e, w') => (Rejected e, w')
    | (Thrown e, w') => (Thrown e, w')
    end.

(** [p.catch(Class, h)] *)
Definition catch_ {A} (cls : ErrorClass) (h : JsError -> M A) (p : M A) : M A :=
  fun w =>
    match p w with
    | (Rejected e, w') =>
        if ErrorClass_eqb (e_class e) cls then in_callback (h e w') else (Rejected e, w')
    | r => r
    end.

(** [p.catch(h)] *)
Definition catch_all {A} (h : JsError -> M A) (p : M A) : M A :=
  fun w =>
    match p w with
    | (Rejected e, w') => in_callback (h e w')
    | r => r
    end.

(** Chains are written in the order of the source:
    [p |> then_ f |> catch_ C h] is [p.then(f).catch(C, h)]. *)
Notation "p |> f" := (f p) (at level 50, left associativity, only parsing).

(** [Promise.reduce(l, f, acc)]: the callbacks run one after the other
    and the first rejection ends the reduction. *)
Fixpoint promise_reduce {A B} (f : B -> A -> nat -> M B) (l : list A) (i : nat) (acc : B) : M B :=
  match l with
  | [] => resolve acc
  | x :: l' => f acc x i |> then_ (fun acc' => promise_reduce f l' (S i) acc')
  end.

Section WithEnv.

Variable env : Env.
Variable c : t.

(** **** _fireHandlers *)

(** The reducer passed to [Promise.reduce]. *)
Definition fire_handler (ctx : CrawlContext) (contentType : string)
           (arr : list string) (handlerObj : HandlerObj) (index : nat) : M (list string) :=
  let handlerContentType := h_contentType handlerObj in
  let handlerFun := h_handler handlerObj in
  if negb (handler_matches handlerContentType contentType) then resolve arr
  else
    fun w =>
      let w' := log_invoked index w in
      match handlerFun ctx with
      | Returns (AnArray subArr) => (Fulfilled (arr ++ subArr), w')
      | Returns NotAnArray => (Fulfilled (arr ++ []), w')
      | Fails e => (Rejected e, w')
      end.

(** [contentType] is [None] when the caller passes [false]; calling
    [replace] on it throws. *)
Definition _fireHandlers (contentType : option string) (body url : string) : M (list string) :=
  match contentType with
  | None => throw (mkError TypeError "contentType.replace is not a function" None)
  | Some contentType =>
      let contentType := strip_parameters contentType in
      let ctx := {| ctx_body := body; ctx_url := url; ctx_contentType := contentType |} in
      promise_reduce (fire_handler ctx contentType) (_handlers c) 0%nat []
  end.

(** **** _downloadUrl *)

(** An async function: every failure is a rejection.  The request
    configuration (user agent, content length cap, extra options) is
    part of what [axios_get] stands for. *)
Definition _downloadUrl (url : string) (followRedirect : bool) : M Response :=
  fun w =>
    let w' := log_request url followRedirect w in
    match axios_get env url followRedirect with
    | AxiosRejects message =>
        (Rejected (mkError RequestError ("A request error occurred. " +:+ message) None), w')
    | AxiosResolves None =>
        (Rejected (mkError RequestError "A request error occurred." None), w')
    | AxiosResolves (Some response) =>
        if 400 <=? status response then
          (Rejected (mkError HttpError
                             ("HTTP status code is " +:+ string_of_Z (status response))
                             (Some (status response))), w')
        else (Fulfilled response, w')
    end.

(** **** The queue, as the crawler uses it *)

Definition urlList_insert (u : Url) : M unit :=
  fun w =>
    match urlList_insertIfNotExists env u with
    | None => (Fulfilled tt, log_inserted [u] w)
    | Some e => (Rejected e, log_inserted [u] w)
    end.

Fixpoint first_failure (us : list Url) : option JsError :=
  match us with
  | [] => None
  | u :: us' =>
      match urlList_insertIfNotExists env u with
      | Some e => Some e
      | None => first_failure us'
      end
  end.

(** [Promise.map(links, insert)] starts every insertion; or one bulk
    insertion when the queue offers it. *)
Definition insert_links (links : list string) : M unit :=
  fun w =>
    let us := map Url_of links in
    match urlList_insertIfNotExistsBulk env with
    | None =>
        match first_failure us with
        | None => (Fulfilled tt, log_inserted us w)
        | Some e => (Rejected e, log_inserted us w)
        end
    | Some bulk =>
        match bulk us with
        | None => (Fulfilled tt, log_inserted us w)
        | Some e => (Rejected e, log_inserted us w)
        end
    end.

(** **** robots.txt *)

Definition invalid_url : JsError := mkError TypeError "Invalid URL" None.

(** [None] when [new URL(url)] throws [invalid_url]. *)
Definition _getRobotsUrl (url : string) : option string := robots_url_of env url.

(** What the last callback of [_getOrDownloadRobots] receives: the
    downloaded response, or the literal [{ statusCode: 200, body: '' }]
    the HttpError handler resolves with. *)
Inductive RobotsResponse : Type :=
| Downloaded (response : Response)
| Literal (statusCode : Z) (body : string).

(** [response.data]; the literal has no such property. *)
Definition response_data (r : RobotsResponse) : option string :=
  match r with
  | Downloaded response => Some (data response)
  | Literal _ _ => None
  end.

Definition robots_not_crawled (robotsStatusCode : Z) : JsError :=
  mkError RobotsNotAllowedError
          ("No crawling is allowed because robots.txt could not be crawled. Status code "
             +:+ string_of_Z robotsStatusCode) None.

Definition undefined_toString : JsError :=
  mkError TypeError "Cannot read properties of undefined (reading 'toString')" None.

Definition _getOrDownloadRobots (url : string) : M string :=
  fun w =>
    match _getRobotsUrl url with
    | None => (Thrown invalid_url, w)
    | Some robotsUrl =>
        let ignoreServerError := _robotsIgnoreServerError c in
        match robotsCache w !! robotsUrl with
        | Some robotsTxt => (Fulfilled robotsTxt, w)
        | None =>
            (urlList_insert (Url_of robotsUrl)
             |> then_ (fun _ =>
                  _downloadUrl robotsUrl true
                  |> then_ (fun response => resolve (Downloaded response)))
             |> catch_ HttpError (fun err =>
                  match e_statusCode err with
                  | Some robotsStatusCode =>
                      if (robotsStatusCode =? 500) && negb (truthy ignoreServerError)
                      then reject (robots_not_crawled robotsStatusCode)
                      else resolve (Literal 200 EmptyString)
                  | None => resolve (Literal 200 EmptyString)
                  end)
             |> then_ (fun response =>
                  match response_data response with
                  | None => throw undefined_toString
                  | Some robotsTxt =>
                      fun w1 => (Fulfilled robotsTxt, cache_set robotsUrl robotsTxt w1)
                  end)) w
        end
    end.

Definition robots_excluded (url : string) : JsError :=
  mkError RobotsNotAllowedError
          ("The URL " +:+ url +:+ " is not allowed to be crawled due to robots.txt exclusion")
          None.

Definition _downloadAndCheckRobots (url : string) : M unit :=
  _getOrDownloadRobots url
  |> then_ (fun robotsTxt =>
       if String.eqb robotsTxt EmptyString then resolve tt
       else
         fun w =>
           match _getRobotsUrl url with
           | None => (Thrown invalid_url, w)
           | Some robotsUrl =>
               let isAllowed := robots_isAllowed env robotsUrl robotsTxt url in
               if negb isAllowed then (Rejected (robots_excluded url), w)
               else (Fulfilled tt, w)
           end).

(** **** _processUrl *)

Definition downloadPromise (url : string) : M Response :=
  if _robotsEnabled c then
    _downloadAndCheckRobots url
    |> catch_ RobotsNotAllowedError (fun err => reject err)
    |> catch_all (fun _ => resolve tt)
    |> then_ (fun _ => _downloadUrl url false)
  else _downloadUrl url false.

Definition nonempty (o : option string) : option string :=
  match o with
  | Some s => if String.eqb s EmptyString then None else Some s
  | None => None
  end.

Definition resolve_needs_string : JsError :=
  mkError TypeError "The 'url' argument must be of type string. Received undefined" None.

(** The first [then] callback; it also keeps the response for the
    third one.  [_downloadUrl] never fulfils with a missing response,
    so the callback's guard against one has nothing to catch. *)
Definition links_of_response (url : string) (response : Response) : M (Response * list string) :=
  let contentType :=
    match nonempty (header_content_type response) with
    | Some s => Some s
    | None => mime_lookup env url
    end in
  let statusCode := status response in
  let location := header_location response in
  if (300 <=? statusCode) && (statusCode <? 400) then
    fun w =>
      let w' := emit (redirect url location) w in
      match location with
      | None => (Thrown resolve_needs_string, w')
      | Some location => (Fulfilled (response, [url_resolve env url location]), w')
      end
  else
    _fireHandlers contentType (data response) url
    |> catch_all (fun err w =>
         (Rejected (mkError HandlersError
                            ("A handlers error occured. " +:+ e_message err) None),
          emit (handlersError err) w))
    |> then_ (fun links => resolve (response, links)).

(** The second [then] callback. *)
Definition insert_discovered (url : string) (rl : Response * list string) : M Response :=
  fun w =>
    let links := snd rl in
    let w' := emit (links_found url links) w in
    (insert_links links |> then_ (fun _ => resolve (fst rl))) w'.

(** The third [then] callback. *)
Definition success_record (url : string) (response : Response) : M Url :=
  resolve {| getUrl := url;
             getStatusCode := Some (status response);
             getErrorCode := None;
             getErrorMessage := None |}.

(** The chain up to the construction of the success record. *)
Definition attempt (url : string) : M Url :=
  downloadPromise url
  |> then_ (links_of_response url)
  |> then_ (insert_discovered url)
  |> then_ (success_record url).

Definition failure_record (url errorCode : string) (err : JsError) : M Url :=
  resolve {| getUrl := url;
             getStatusCode := None;
             getErrorCode := Some errorCode;
             getErrorMessage := Some (e_message err) |}.

Definition http_failure_record (url : string) (err : JsError) : M Url :=
  fun w =>
    (Fulfilled {| getUrl := url;
                  getStatusCode := e_statusCode err;
                  getErrorCode := Some "HTTP_ERROR";
                  getErrorMessage := None |},
     emit (httpError err url) w).

Definition announce (u : Url) : M Url :=
  fun w =>
    (Fulfilled u,
     emit (crawledurl (getUrl u) (getErrorCode u) (getStatusCode u) (getErrorMessage u)) w).

Definition _processUrl (url : string) : M Url :=
  fun w =>
    (attempt url
     |> catch_ RobotsNotAllowedError (failure_record url "ROBOTS_NOT_ALLOWED")
     |> catch_ HttpError (http_failure_record url)
     |> catch_ RequestError (failure_record url "REQUEST_ERROR")
     |> catch_ HandlersError (failure_record url "HANDLERS_ERROR")
     |> catch_all (failure_record url "OTHER_ERROR")
     |> then_ announce)
      (emit (crawlurl url) w).

End WithEnv.

(** *** Reading a dispatch: which handlers take part, and with what *)





(** How the download of robots.txt ends, as [_downloadUrl] and the
    HttpError handler of [_getOrDownloadRobots] tell the cases apart. *)
Inductive RobotsRetrieval : Type :=
| RobotsDownloaded (response : Response)
| RobotsNoAnswer
| RobotsHttpFailure (statusCode : Z).

Definition robots_retrieval (env : Env) (robotsUrl : string) : RobotsRetrieval :=
  match axios_get env robotsUrl true with
  | AxiosRejects _ => RobotsNoAnswer
  | AxiosResolves None => RobotsNoAnswer
  | AxiosResolves (Some response) =>
      if 400 <=? status response then RobotsHttpFailure (status response)
      else RobotsDownloaded response
  end.

Definition no_answer (env : Env) (robotsUrl : string) : bool :=
  match robots_retrieval env robotsUrl with
  | RobotsNoAnswer => true
  | _ => false
  end.

(** The retrieval failed, and not with a 500 that counts as a refusal. *)
Definition failed_permissively (env : Env) (c : t) (robotsUrl : string) : bool :=
  match robots_retrieval env robotsUrl with
  | RobotsDownloaded _ => false
  | RobotsNoAnswer => true
  | RobotsHttpFailure statusCode =>
      negb ((statusCode =? 500) && negb (truthy (_robotsIgnoreServerError c)))
  end.

(** The same crawler constructed with [robotsEnabled: false]. *)
Definition without_robots (c : t) : t :=
  {| _interval := _interval c;
     _concurrentRequestsLimit := _concurrentRequestsLimit c;
     _userAgent := _userAgent c;
     _handlers := _handlers c;
     _outstandingRequests := _outstandingRequests c;
     _robotsIgnoreServerError := _robotsIgnoreServerError c;
     _robotsEnabled := false;
     _maxContentLength := _maxContentLength c;
     _started := _started c;
     _lastRequestDate := _lastRequestDate c |}.

(** The call returned a promise: it did not end by throwing. *)
Definition returns_promise {A} (r : Completion A * World) : Prop :=
  forall e, fst r <> Thrown e.


(** *** The tick loop: the synchronous part of _crawlTick *)

(** The time value of [new Date(last + interval)]; [None] is an invalid
    date.  Adding undefined or NaN gives NaN; null and booleans convert
    to numbers.  A string or function makes the sum a text, which is
    outside the documented number-or-function setting and is read here
    as no valid date. *)
Definition date_plus (last : Z) (interval : JsValue) : option Z :=
  match interval with
  | JsNumber n => Some (last + n)
  | JsNull | JsBool false => Some last
  | JsBool true => Some (last + 1)
  | JsUndefined | JsNaN | JsString _ | JsFunction => None
  end.

(** [clock] is what [new Date()] reads. *)
Definition _getNextRequestDate (c : t) (produced : JsValue) (clock : Z) : option Z :=
  let interval := getInterval c produced in
  let lastRequestDate := _lastRequestDate c in
  match lastRequestDate with
  | None => Some clock
  | Some last => date_plus last interval
  end.

(** [nextRequestDate - nowDate > 0]; a comparison with NaN is false. *)
Definition is_later (nextRequestDate : option Z) (nowDate : Z) : bool :=
  match nextRequestDate with
  | Some next => 0 <? next - nowDate
  | None => false
  end.

Definition set_lastRequestDate (nowDate : Z) (c : t) : t :=
  {| _interval := _interval c;
     _concurrentRequestsLimit := _concurrentRequestsLimit c;
     _userAgent := _userAgent c;
     _handlers := _handlers c;
     _outstandingRequests := _outstandingRequests c;
     _robotsIgnoreServerError := _robotsIgnoreServerError c;
     _robotsEnabled := _robotsEnabled c;
     _maxContentLength := _maxContentLength c;
     _started := _started c;
     _lastRequestDate := Some nowDate |}.

(** How the synchronous part of a tick ends: nothing to do, a call of
    [_scheduleNextTick] (which arranges a later tick), or the request
    to the queue whose continuation does the crawling. *)
Inductive TickOutcome : Type :=
| NotStarted
| Rescheduled
| Dequeuing.

(** What one tick reads from outside: the result of the interval
    function if there is one, and the two clock readings (inside
    [_getNextRequestDate], and for [nowDate]). *)
Record TickInput : Type := mkTick {
  produced : JsValue;
  clock_next : Z;
  clock_now : Z
}.

Definition _crawlTick (c : t) (i : TickInput) : t * TickOutcome :=
  if negb (_started c) then (c, NotStarted)
  else
    let nextRequestDate := _getNextRequestDate c (produced i) (clock_next i) in
    let nowDate := clock_now i in
    if is_later nextRequestDate nowDate then (c, Rescheduled)
    else (set_lastRequestDate nowDate c, Dequeuing).

(** The ticks of all chains, in the order the event loop runs them, and
    the values written to [_lastRequestDate] on the way. *)
Fixpoint run_ticks (c : t) (inputs : list TickInput) : t * list Z :=
  match inputs with
  | [] => (c, [])
  | i :: inputs' =>
      let '(c', outcome) := _crawlTick c i in
      let '(c'', writes) := run_ticks c' inputs' in
      match outcome with
      | Dequeuing => (c'', clock_now i :: writes)
      | _ => (c'', writes)
      end
  end.

(** The tick reads [iv] as its interval, from the numeric setting or
      from the interval function. *)
Definition reads_interval (iv : Z) (c : t) (i : TickInput) : bool :=
  match getInterval c (produced i) with
  | JsNumber n => n =? iv
  | _ => false
  end.

(** Every value of the list is at least [d] after the one before it. *)
Fixpoint spaced (d : Z) (prev : option Z) (l : list Z) : Prop :=
  match l with
  | [] => True
  | x :: l' =>
      match prev with
      | Some p => d <= x - p
      | None => True
      end /\ spaced d (Some x) l'
  end.

(** *** start and the rescheduling *)

Definition set_started (started : bool) (c : t) : t :=
  {| _interval := _interval c;
     _concurrentRequestsLimit := _concurrentRequestsLimit c;
     _userAgent := _userAgent c;
     _handlers := _handlers c;
     _outstandingRequests := _outstandingRequests c;
     _robotsIgnoreServerError := _robotsIgnoreServerError c;
     _robotsEnabled := _robotsEnabled c;
     _maxContentLength := _maxContentLength c;
     _started := started;
     _lastRequestDate := _lastRequestDate c |}.

(** How often the body of [for (i = 0; i < limit; i++)] runs.  The limit
    is compared as a number: undefined, NaN and a function compare false
    at once, null and false count as 0, true as 1.  A string would be
    read as a numeral, which the model does not follow ([None]). *)
Definition loop_count (limit : JsValue) : option nat :=
  match limit with
  | JsNumber n => Some (Z.to_nat n)
  | JsBool true => Some 1%nat
  | JsUndefined | JsNull | JsNaN | JsBool false | JsFunction => Some 0%nat
  | JsString _ => None
  end.

(** [start()]: [readings k] is what the k-th tick of the loop reads.
    Gives the crawler afterwards, the returned flag, and the values the
    ticks wrote to [_lastRequestDate]. *)
Definition start (c : t) (readings : nat -> TickInput) : option (t * bool * list Z) :=
  if _started c then Some (c, false, [])
  else
    match loop_count (getConcurrentRequestsLimit c) with
    | None => None
    | Some concurrentRequestsLimit =>
        let '(c', writes) :=
          run_ticks (set_started true c) (map readings (seq 0 concurrentRequestsLimit)) in
        Some (c', true, writes)
    end.

(** [_scheduleNextTick]: the delay handed to setTimeout, [None] when it
    is NaN. *)
Definition _scheduleNextTick (c : t) (i : TickInput) : option Z :=
  let nextRequestDate := _getNextRequestDate c (produced i) (clock_next i) in
  let nowDate := clock_now i in
  match nextRequestDate with
  | Some next => Some (Z.max 0 (next - nowDate))
  | None => None
  end.

(** *** The continuation of a tick: dequeue, process, record *)

Section Chains.

(** Promise chains over any state, as [then_], [catch_] above. *)
Context {S : Type}.

Definition Chain (A : Type) : Type := S -> Completion A * S.

Definition settle_callback {A} (r : Completion A * S) : Completion A * S :=
  match r with
  | (Thrown e, s) => (Rejected e, s)
  | _ => r
  end.

Definition chain_then {A B} (f : A -> Chain B) (p : Chain A) : Chain B :=
  fun s =>
    match p s with
    | (Fulfilled a, s') => settle_callback (f a s')
    | (Rejected e, s') => (Rejected e, s')
    | (Thrown e, s') => (Thrown e, s')
    end.

Definition chain_catch {A} (cls : ErrorClass) (h : JsError -> Chain A) (p : Chain A) : Chain A :=
  fun s =>
    match p s with
    | (Rejected e, s') =>
        if ErrorClass_eqb (e_class e) cls then settle_callback (h e s') else (Rejected e, s')
    | r => r
    end.

(** [p.finally(h)] with a handler that only changes the state: it runs
    however [p] settled, and the settlement is passed on. *)
Definition chain_finally {A} (h : S -> S) (p : Chain A) : Chain A :=
  fun s =>
    match p s with
    | (Thrown e, s') => (Thrown e, s')
    | (r, s') => (r, h s')
    end.

End Chains.

Arguments Chain : clear implicits.

(** The events of the tick loop. *)
Inductive QueueEvent : Type :=
| urllistempty
| urllistcomplete.

(** The queue behind [getUrlList()] as a tick meets it: how its
    [getNextUrl()] settles, and whether an [upsert] fails. *)
Record Queue : Type := mkQueue {
  urlList_getNextUrl : Completion Url;
  urlList_upsert : Url -> option JsError
}.

(** What a tick's continuation works on: the crawler, the world of the
    processing, the tick loop's events, the outcomes handed to upsert,
    and the number of [_scheduleNextTick] calls. *)
Record Engine : Type := mkEngine {
  engine_crawler : t;
  engine_world : World;
  queue_events : list QueueEvent;
  upserted : list Url;
  scheduled : nat
}.

Definition add_outstanding (k : Z) (s : Engine) : Engine :=
  let c := engine_crawler s in
  {| engine_crawler :=
       {| _interval := _interval c;
          _concurrentRequestsLimit := _concurrentRequestsLimit c;
          _userAgent := _userAgent c;
          _handlers := _handlers c;
          _outstandingRequests := _outstandingRequests c + k;
          _robotsIgnoreServerError := _robotsIgnoreServerError c;
          _robotsEnabled := _robotsEnabled c;
          _maxContentLength := _maxContentLength c;
          _started := _started c;
          _lastRequestDate := _lastRequestDate c |};
     engine_world := engine_world s;
     queue_events := queue_events s;
     upserted := upserted s;
     scheduled := scheduled s |}.

Definition emit_queue (ev : QueueEvent) (s : Engine) : Engine :=
  mkEngine (engine_crawler s) (engine_world s) (queue_events s ++ [ev]) (upserted s) (scheduled s).

Definition schedule_next (s : Engine) : Engine :=
  mkEngine (engine_crawler s) (engine_world s) (queue_events s) (upserted s) (S (scheduled s)).

Definition queue_getNextUrl (q : Queue) : Chain Engine Url :=
  fun s => (urlList_getNextUrl q, s).

Definition queue_upsert (q : Queue) (resultUrl : Url) : Chain Engine unit :=
  fun s =>
    (match urlList_upsert q resultUrl with
     | None => Fulfilled tt
     | Some e => Rejected e
     end,
     mkEngine (engine_crawler s) (engine_world s) (queue_events s)
              (upserted s ++ [resultUrl]) (scheduled s)).

Definition process (env : Env) (url : string) : Chain Engine Url :=
  fun s =>
    let '(r, w) := _processUrl env (engine_crawler s) url (engine_world s) in
    (r, mkEngine (engine_crawler s) w (queue_events s) (upserted s) (scheduled s)).

(** The part of [_crawlTick] after [_lastRequestDate] is written. *)
Definition crawl_continuation (env : Env) (q : Queue) : Chain Engine unit :=
  queue_getNextUrl q
  |> chain_then (fun urlObj s =>
       let url := getUrl urlObj in
       (process env url
        |> chain_then (queue_upsert q)
        |> chain_finally (add_outstanding (-1)))
         (add_outstanding 1 s))
  |> chain_catch RangeError (fun _ s =>
       let s1 := emit_queue urllistempty s in
       (Fulfilled tt,
        if _outstandingRequests (engine_crawler s1) =? 0
        then emit_queue urllistcomplete s1 else s1))
  |> chain_finally schedule_next.

(** *** Reading a response *)


Definition is_redirect (response : Response) : bool :=
  (300 <=? status response) && (status response <? 400).


End Crawler.

(* ------------------------------------------------------------------ *)
(** ** Sample configurations and environments                           *)
(* ------------------------------------------------------------------ *)

Module Samples.

Import Crawler.

Definition page_links : Handler := fun _ => Returns (AnArray ["http://a/1"]).
Definition sitemap_links : Handler := fun _ => Returns (AnArray ["http://a/2"; "http://a/3"]).

(** A crawler with default options and the given handlers registered. *)
Definition with_handlers (hs : list HandlerObj) : t :=
  fold_left (fun c ho => fst (addHandler (TwoArguments (h_contentType ho) (h_handler ho)) c))
            hs (new None).

Definition two_handlers : t :=
  with_handlers [mkHandlerObj (MString "text/html") page_links;
                 mkHandlerObj (MString "*") sitemap_links].


Definition started (c : t) : t :=
  {| _interval := _interval c;
     _concurrentRequestsLimit := _concurrentRequestsLimit c;
     _userAgent := _userAgent c;
     _handlers := _handlers c;
     _outstandingRequests := _outstandingRequests c;
     _robotsIgnoreServerError := _robotsIgnoreServerError c;
     _robotsEnabled := _robotsEnabled c;
     _maxContentLength := _maxContentLength c;
     _started := true;
     _lastRequestDate := _lastRequestDate c |}.

Definition html_page (code : Z) : Response :=
  mkResponse code (Some "text/html") None "<html></html>".

(** A site whose robots.txt answers with [robotsStatus] and whose pages
    answer with [pageStatus]; the queue accepts every insertion. *)
Definition site (robotsStatus pageStatus : Z) : Env :=
  {| axios_get := fun u _ =>
       if String.eqb u "http://a/robots.txt"
       then AxiosResolves (Some (mkResponse robotsStatus None None "oops"))
       else AxiosResolves (Some (html_page pageStatus));
     robots_url_of := fun _ => Some "http://a/robots.txt";
     robots_isAllowed := fun _ _ _ => true;
     mime_lookup := fun _ => None;
     url_resolve := fun _ location => location;
     urlList_insertIfNotExists := fun _ => None;
     urlList_insertIfNotExistsBulk := None |}.

(** A site whose pages answer 200 but whose robots.txt cannot be reached. *)
Definition site_without_robots_answer : Env :=
  {| axios_get := fun u _ =>
       if String.eqb u "http://a/robots.txt"
       then AxiosRejects "connect ECONNREFUSED"
       else AxiosResolves (Some (html_page 200));
     robots_url_of := fun _ => Some "http://a/robots.txt";
     robots_isAllowed := fun _ _ _ => true;
     mime_lookup := fun _ => None;
     url_resolve := fun _ location => location;
     urlList_insertIfNotExists := fun _ => None;
     urlList_insertIfNotExistsBulk := None |}.

End Samples.

(* ================================================================== *)
(** * Properties                                                        *)
(* ================================================================== *)

(* ------------------------------------------------------------------ *)
(** ** DbUrlList                                                         *)
(* ------------------------------------------------------------------ *)

Section DbUrlListFacts.

Import DbUrlList.






(** The update of getNextUrl counts the selected row as affected as long
    as the row exists, whatever its crawled column holds: a dequeue by
    another caller in between does not show in the count. *)
Lemma update_counts_existing_row (r : Row) (t : Table) :
  In r (rows t) -> 0 < fst (update_crawled_where_id (id r) t).
Proof.
  intros Hin. unfold update_crawled_where_id. simpl.
  assert (Hf : In r (List.filter (fun r0 => id r0 =? id r) (rows t))).
  { apply filter_In. split; [exact Hin | apply Z.eqb_refl]. }
  destruct (List.filter (fun r0 => id r0 =? id r) (rows t)); [destruct Hf|].
  simpl length. lia.
Qed.

Lemma min_id_row_from (l : list Row) (best : option Row) (r : Row) :
  fold_left min_id_row l best = Some r -> best = Some r \/ In r l.
Proof.
  revert best. induction l as [|x l IH]; intros best H; simpl in *.
  - left. exact H.
  - destruct (IH _ H) as [Hb|Hin]; [|right; right; exact Hin].
    unfold min_id_row in Hb. destruct best as [b|].
    + destruct (id x <? id b); injection Hb as <-; [right; left|left]; reflexivity.
    + injection Hb as <-. right. left. reflexivity.
Qed.

Lemma findOne_uncrawled_In (t : Table) (r : Row) :
  findOne_uncrawled t = Some r -> In r (rows t) /\ crawled r = Some false.
Proof.
  unfold findOne_uncrawled. intros H.
  destruct (min_id_row_from _ _ _ H) as [Hb|Hin]; [discriminate|].
  apply filter_In in Hin. destruct Hin as [Hin Hun]. split; [exact Hin|].
  unfold is_uncrawled in Hun. destruct (crawled r) as [[|]|]; try discriminate. reflexivity.
Qed.

(** A caller running alone settles within two round trips: it never
    takes the retry branch. *)
Lemma getNextUrl_alone_settles (t : Table) :
  exists result t', getNextUrl 2 t = (Some result, t').
Proof.
  unfold getNextUrl. simpl.
  destruct (findOne_uncrawled t) as [r|] eqn:Hsel; simpl.
  - pose proof (update_counts_existing_row r t (proj1 (findOne_uncrawled_In t r Hsel))) as Hpos.
    unfold update_crawled_where_id in *. simpl in *.
    destruct (Z.of_nat _ =? 0) eqn:Hz; [apply Z.eqb_eq in Hz; lia|].
    eexists. eexists. reflexivity.
  - eexists. eexists. reflexivity.
Qed.

Lemma update_keeps_count (i j : Z) (t : Table) :
  fst (update_crawled_where_id i (snd (update_crawled_where_id j t)))
  = fst (update_crawled_where_id i t).
Proof.
  unfold update_crawled_where_id. simpl. f_equal.
  induction (rows t) as [|r l IH]; simpl; [reflexivity|].
  assert (Hid : id (if id r =? j then set_crawled r else r) = id r).
  { destruct (id r =? j); reflexivity. }
  rewrite Hid. destruct (id r =? i); simpl; rewrite IH; reflexivity.
Qed.

(** Whatever the table, two calls that both select before either updates
    fulfil with the same row. *)
Lemma step_caller_at (k : nat) (cs : list Call) (t t' : Table) (c c' : Call) :
  cs !! k = Some c -> call_step c t = (c', t') ->
  step_caller k cs t = (<[k := c']> cs, t').
Proof. unfold step_caller. intros -> ->. reflexivity. Qed.

Lemma racing_calls_share_the_row (t : Table) (r : Row) :
  findOne_uncrawled t = Some r ->
  fst (run_schedule [0; 1; 0; 1]%nat [Selecting; Selecting] t)
  = [Settled (Fulfilled (Url_of_row r)); Settled (Fulfilled (Url_of_row r))].
Proof.
  intros Hsel.
  pose proof (update_counts_existing_row r t (proj1 (findOne_uncrawled_In t r Hsel))) as Hpos.
  pose proof (update_keeps_count (id r) (id r) t) as Hkeep.
  assert (Hselect : call_step Selecting t = (Updating r, t)).
  { unfold call_step. rewrite Hsel. reflexivity. }
  assert (Hupdate : forall t0 n t1,
             update_crawled_where_id (id r) t0 = (n, t1) -> 0 < n ->
             call_step (Updating r) t0 = (Settled (Fulfilled (Url_of_row r)), t1)).
  { intros t0 n t1 Hu Hn. unfold call_step. rewrite Hu.
    destruct (n =? 0) eqn:Hz; [apply Z.eqb_eq in Hz; lia | reflexivity]. }
  destruct (update_crawled_where_id (id r) t) as [n1 t1] eqn:Hu1.
  cbn [fst snd] in Hpos, Hkeep.
  destruct (update_crawled_where_id (id r) t1) as [n2 t2] eqn:Hu2.
  cbn [fst] in Hkeep. subst n2.
  set (done := Settled (Fulfilled (Url_of_row r))) in *.
  cbn [run_schedule].
  rewrite (step_caller_at 0 [Selecting; Selecting] t t Selecting (Updating r) eq_refl Hselect).
  change (<[0%nat := Updating r]> [Selecting; Selecting]) with [Updating r; Selecting].
  cbv beta iota.
  rewrite (step_caller_at 1 [Updating r; Selecting] t t Selecting (Updating r) eq_refl Hselect).
  change (<[1%nat := Updating r]> [Updating r; Selecting]) with [Updating r; Updating r].
  cbv beta iota.
  rewrite (step_caller_at 0 [Updating r; Updating r] t t1 (Updating r) done eq_refl
             (Hupdate t n1 t1 Hu1 Hpos)).
  change (<[0%nat := done]> [Updating r; Updating r]) with [done; Updating r].
  cbv beta iota.
  rewrite (step_caller_at 1 [done; Updating r] t1 t2 (Updating r) done eq_refl
             (Hupdate t1 n1 t2 Hu2 Hpos)).
  reflexivity.
Qed.






(** Over a store that rejects a new row without a crawled value, no
    insertion goes through: the rejection is not the unique constraint
    error that insertIfNotExists absorbs. *)
Lemma insertIfNotExists_rejected_by_strict_store
      (sha1_hex : string -> string) (u : Url) (t : Table) :
  insertIfNotExists sha1_hex None u t = (Rejected notNull_violation, t).
Proof. reflexivity. Qed.

End DbUrlListFacts.

(* ------------------------------------------------------------------ *)
(** ** Crawler: the handler registry                                     *)
(* ------------------------------------------------------------------ *)

Section HandlerFacts.

Import Crawler.

Lemma append_nil_l (s : string) : EmptyString +:+ s = s.
Proof. reflexivity. Qed.

Lemma append_cons (a : ascii) (s1 s2 : string) : String a s1 +:+ s2 = String a (s1 +:+ s2).
Proof. reflexivity. Qed.

Lemma prefix_nil_l (s : string) : String.prefix EmptyString s = true.
Proof. destruct s; reflexivity. Qed.

Lemma prefix_cons_nil (a : ascii) (s : string) : String.prefix (String a s) EmptyString = false.
Proof. reflexivity. Qed.

Lemma prefix_cons (a b : ascii) (s1 s2 : string) :
  String.prefix (String a s1) (String b s2)
  = if Ascii.eqb a b then String.prefix s1 s2 else false.
Proof.
  cbn [String.prefix].
  destruct (ascii_dec a b) as [->|Hne].
  - rewrite Ascii.eqb_refl. reflexivity.
  - apply Ascii.eqb_neq in Hne. rewrite Hne. reflexivity.
Qed.

(** [T + "/"] starts [contentType + "/"] exactly when contentType is T
    or starts with [T + "/"]. *)
Lemma slash_prefix_spec (T contentType : string) :
  String.prefix (T +:+ "/") (contentType +:+ "/") = true
  <-> contentType = T \/ String.prefix (T +:+ "/") contentType = true.
Proof.
  revert contentType. induction T as [|a T IH]; intros [|b ct];
    rewrite ?append_cons, ?append_nil_l.
  - rewrite prefix_cons, prefix_nil_l, Ascii.eqb_refl. tauto.
  - rewrite !prefix_cons, !prefix_nil_l.
    destruct (Ascii.eqb "/" b); [tauto|].
    split; [discriminate | intros [H|H]; discriminate].
  - rewrite prefix_cons, prefix_cons_nil.
    destruct (Ascii.eqb a "/").
    + destruct T; rewrite ?append_cons, ?append_nil_l, prefix_cons_nil;
        (split; [discriminate | intros [H|H]; discriminate]).
    + split; [discriminate | intros [H|H]; discriminate].
  - rewrite !prefix_cons.
    destruct (Ascii.eqb_spec a b) as [->|Hne].
    + rewrite IH. split; (intros [H|H]; [left; congruence | right; exact H]).
    + split; [discriminate|]. intros [H|H]; [congruence | discriminate].
Qed.

(** The wildcard matches every content type. *)
Lemma wildcard_matches (contentType : string) :
  handler_matches (MString "*") contentType = true.
Proof. reflexivity. Qed.

(** A single string other than the wildcard matches exactly the content
    types equal to it or starting with it and a slash. *)
Lemma string_matcher_spec (T contentType : string) :
  T <> "*" ->
  handler_matches (MString T) contentType = true
  <-> contentType = T \/ String.prefix (T +:+ "/") contentType = true.
Proof.
  intros Hne. unfold handler_matches. simpl.
  destruct (String.eqb_spec T "*") as [->|_]; [congruence|].
  rewrite <- slash_prefix_spec.
  destruct (String.prefix (T +:+ "/") (contentType +:+ "/")); tauto.
Qed.

(** A list that contains the content type matches it. *)
Lemma array_matcher_contains (l : list string) (contentType : string) :
  In contentType l -> handler_matches (MArray l) contentType = true.
Proof.
  intros Hin. unfold handler_matches. simpl.
  assert (H : existsb (String.eqb contentType) l = true).
  { apply existsb_exists. exists contentType. split; [exact Hin | apply String.eqb_refl]. }
  rewrite H. reflexivity.
Qed.

(** A list that does not contain the content type is compared as the text
    of its elements joined by commas. *)
Lemma array_matcher_falls_through (l : list string) (contentType : string) :
  ~ In contentType l ->
  handler_matches (MArray l) contentType
  = String.prefix (String.concat "," l +:+ "/") (contentType +:+ "/").
Proof.
  intros Hnin. unfold handler_matches. simpl.
  assert (H : existsb (String.eqb contentType) l = false).
  { apply not_true_is_false. intros Hex. apply existsb_exists in Hex.
    destruct Hex as [x [Hx Heq]]. apply String.eqb_eq in Heq. subst x. tauto. }
  rewrite H. destruct (String.prefix _ _); reflexivity.
Qed.

(** C6 (evaluation of the code at the failing input).  The list matcher
    ["text"] does not contain the content type "text/html", yet the match
    flag is set: a list that fails the containment test falls through to
    the prefix test, where it stands as the text "text". *)
Theorem C6_list_matcher_matches_without_containing :
  handler_matches (MArray ["text"]) "text/html" = true
  /\ ~ In "text/html" ["text"]
  /\ matcher_to_string (MArray ["text"]) = "text".
Proof.
  split; [reflexivity|]. split; [|reflexivity].
  intros [H|[]]. discriminate H.
Qed.




Lemma in_callback_not_thrown {A} (r : Completion A * World) (e : JsError) :
  fst (in_callback r) <> Thrown e.
Proof. destruct r as [[a|e'|e'] w]; simpl; discriminate. Qed.

Lemma in_callback_id {A} (r : Completion A * World) :
  (forall e, fst r <> Thrown e) -> in_callback r = r.
Proof.
  destruct r as [[a|e'|e'] w]; simpl; intros H; try reflexivity.
  exfalso. apply (H e'). reflexivity.
Qed.







End HandlerFacts.

(* ------------------------------------------------------------------ *)
(** ** Crawler: options and pacing                                       *)
(* ------------------------------------------------------------------ *)

Section PacingFacts.

Import Crawler.





Lemma crawlTick_keeps_interval (c : t) (i : TickInput) :
  _interval (fst (_crawlTick c i)) = _interval c.
Proof.
  unfold _crawlTick. destruct (negb (_started c)); [reflexivity|].
  destruct (is_later _ _); reflexivity.
Qed.

Lemma reads_interval_spec (iv : Z) (c : t) (i : TickInput) :
  reads_interval iv c i = true -> getInterval c (produced i) = JsNumber iv.
Proof.
  unfold reads_interval. destruct (getInterval c (produced i)); try discriminate.
  intros H. apply Z.eqb_eq in H. congruence.
Qed.

(** A tick that goes on to dequeue has written its [nowDate], and that
    date is at least the interval after the date it found. *)
Lemma crawlTick_dequeuing (c c' : t) (i : TickInput) (iv : Z) :
  getInterval c (produced i) = JsNumber iv ->
  _crawlTick c i = (c', Dequeuing) ->
  _lastRequestDate c' = Some (clock_now i)
  /\ match _lastRequestDate c with
     | Some last => iv <= clock_now i - last
     | None => True
     end.
Proof.
  intros Hiv. unfold _crawlTick.
  destruct (negb (_started c)); [discriminate|].
  unfold _getNextRequestDate. rewrite Hiv.
  destruct (_lastRequestDate c) as [last|] eqn:Hlast; simpl.
  - destruct (0 <? last + iv - clock_now i) eqn:Hlt; [discriminate|].
    intros H. injection H as <-. simpl. split; [reflexivity|].
    apply Z.ltb_ge in Hlt. lia.
  - destruct (0 <? clock_next i - clock_now i); [discriminate|].
    intros H. injection H as <-. simpl. split; [reflexivity | exact I].
Qed.

Lemma crawlTick_not_dequeuing (c c' : t) (i : TickInput) (o : TickOutcome) :
  _crawlTick c i = (c', o) -> o <> Dequeuing -> c' = c.
Proof.
  unfold _crawlTick. destruct (negb (_started c)).
  - intros H _. injection H as <- _. reflexivity.
  - destruct (is_later _ _).
    + intros H _. injection H as <- _. reflexivity.
    + intros H Hne. injection H as _ <-. congruence.
Qed.

Lemma run_ticks_spaced (iv : Z) (c0 : t) (inputs : list TickInput) (c : t) :
  _interval c = _interval c0 ->
  forallb (reads_interval iv c0) inputs = true ->
  spaced iv (_lastRequestDate c) (snd (run_ticks c inputs)).
Proof.
  revert c. induction inputs as [|i inputs IH]; intros c Hsame Hall; simpl; [exact I|].
  simpl in Hall. apply andb_true_iff in Hall. destruct Hall as [Hi Hall].
  destruct (_crawlTick c i) as [c' o] eqn:Htick.
  assert (Hsame' : _interval c' = _interval c0).
  { pose proof (crawlTick_keeps_interval c i) as H. rewrite Htick in H. simpl in H. congruence. }
  specialize (IH c' Hsame' Hall).
  destruct (run_ticks c' inputs) as [c'' writes] eqn:Hrun. simpl in IH.
  destruct o.
  - assert (c' = c) by (eapply crawlTick_not_dequeuing; [exact Htick | discriminate]).
    subst c'. exact IH.
  - assert (c' = c) by (eapply crawlTick_not_dequeuing; [exact Htick | discriminate]).
    subst c'. exact IH.
  - apply reads_interval_spec in Hi.
    assert (Hiv : getInterval c (produced i) = JsNumber iv).
    { unfold getInterval in *. rewrite Hsame. exact Hi. }
    destruct (crawlTick_dequeuing c c' i iv Hiv Htick) as [Hw Hsep].
    rewrite Hw in IH. simpl. split; [|exact IH].
    destruct (_lastRequestDate c); [exact Hsep | exact I].
Qed.

(** C8.  When the interval every tick reads is the number iv, in any
    sequence of ticks (of whatever chains, at whatever clock readings)
    each value written to lastRequestDate is at least iv after the value
    written before it, the one found at the outset included.  The write
    belongs to the synchronous part of the tick: a tick that goes on to
    dequeue has already stored its date, and a started tick that finds
    the next allowed date later than now leaves the state as it is and
    reschedules itself. *)
Theorem C8_request_starts_are_paced (c : t) (iv : Z) (inputs : list TickInput) :
  forallb (reads_interval iv c) inputs = true ->
  spaced iv (_lastRequestDate c) (snd (run_ticks c inputs))
  /\ (forall i c', _crawlTick c i = (c', Dequeuing) ->
                   _lastRequestDate c' = Some (clock_now i))
  /\ (forall i, _started c = true ->
                is_later (_getNextRequestDate c (produced i) (clock_next i)) (clock_now i) = true ->
                _crawlTick c i = (c, Rescheduled)).
Proof.
  intros Hall. split; [|split].
  - apply (run_ticks_spaced iv c inputs c eq_refl Hall).
  - intros i c'. unfold _crawlTick.
    destruct (negb (_started c)); [discriminate|].
    destruct (is_later _ _); [discriminate|].
    intros H. injection H as <-. reflexivity.
  - intros i Hs Hlater. unfold _crawlTick. rewrite Hs, Hlater. reflexivity.
Qed.

Lemma C8_request_starts_are_paced_witness :
  let c := Samples.started (new None) in
  let inputs := [mkTick JsUndefined 0 0; mkTick JsUndefined 1 1; mkTick JsUndefined 400 400;
                 mkTick JsUndefined 1000 1000; mkTick JsUndefined 1500 1500;
                 mkTick JsUndefined 2100 2100] in
  forallb (reads_interval 1000 c) inputs = true
  /\ snd (run_ticks c inputs) = [0; 1000; 2100]
  /\ spaced 1000 None [0; 1000; 2100].
Proof.
  intros c inputs. split; [reflexivity|]. split; [reflexivity|].
  exact (proj1 (C8_request_starts_are_paced c 1000 inputs eq_refl)).
Defined.

End PacingFacts.

(* ------------------------------------------------------------------ *)
(** ** Crawler: processing one URL                                       *)
(* ------------------------------------------------------------------ *)

Section ProcessFacts.

Import Crawler.






Lemma then_returns_promise {A B} (f : A -> M B) (p : M A) (w : World) :
  returns_promise (p w) -> returns_promise (then_ f p w).
Proof.
  unfold returns_promise, then_. intros Hp e.
  destruct (p w) as [[a|e'|e'] w1]; simpl in *.
  - apply in_callback_not_thrown.
  - discriminate.
  - exfalso. apply (Hp e'). reflexivity.
Qed.

Lemma catch_returns_promise {A} (cls : ErrorClass) (h : JsError -> M A) (p : M A) (w : World) :
  returns_promise (p w) -> returns_promise (catch_ cls h p w).
Proof.
  unfold returns_promise, catch_. intros Hp e.
  destruct (p w) as [[a|e'|e'] w1]; simpl in *.
  - discriminate.
  - destruct (ErrorClass_eqb (e_class e') cls); [apply in_callback_not_thrown | discriminate].
  - apply Hp.
Qed.

Lemma urlList_insert_returns_promise (env : Env) (u : Url) (w : World) :
  returns_promise (urlList_insert env u w).
Proof.
  unfold returns_promise, urlList_insert. intros e.
  destruct (urlList_insertIfNotExists env u); simpl; discriminate.
Qed.

Lemma downloadAndCheckRobots_returns_promise (env : Env) (c : t) (url : string) (w : World) :
  robots_url_of env url <> None ->
  returns_promise (_downloadAndCheckRobots env c url w).
Proof.
  intros Hurl. unfold _downloadAndCheckRobots.
  apply then_returns_promise.
  unfold _getOrDownloadRobots, _getRobotsUrl.
  destruct (robots_url_of env url) as [robotsUrl|]; [|congruence].
  destruct (robotsCache w !! robotsUrl).
  - intros e. simpl. discriminate.
  - apply then_returns_promise, catch_returns_promise, then_returns_promise.
    apply urlList_insert_returns_promise.
Qed.


Lemma downloadUrl_returns_promise (env : Env) (url : string) (follow : bool) (w : World) :
  returns_promise (_downloadUrl env url follow w).
Proof.
  unfold returns_promise, _downloadUrl. intros e.
  destruct (axios_get env url follow) as [m|[r|]]; simpl; try discriminate.
  destruct (400 <=? status r); simpl; discriminate.
Qed.




(** Once the robots URL can be formed, the robots check has no say in
    whether the page is requested: whatever the check ends with, the
    download of the page follows. *)
Lemma robots_check_never_blocks (env : Env) (c : t) (url : string) (w : World) :
  _robotsEnabled c = true ->
  robots_url_of env url <> None ->
  exists w', downloadPromise env c url w = _downloadUrl env url false w'.
Proof.
  intros Hen Hurl. unfold downloadPromise. rewrite Hen.
  unfold then_ at 1. unfold catch_all.
  pose proof (catch_returns_promise RobotsNotAllowedError (fun err => reject err)
                _ w (downloadAndCheckRobots_returns_promise env c url w Hurl)) as Hnt.
  destruct (catch_ RobotsNotAllowedError (fun err => reject err)
                   (_downloadAndCheckRobots env c url) w) as [[a|e|e] w1]; simpl in *.
  - exists w1. apply in_callback_id, downloadUrl_returns_promise.
  - exists w1. apply in_callback_id, downloadUrl_returns_promise.
  - exfalso. apply (Hnt e). reflexivity.
Qed.

Lemma then_same {A B} (f : A -> M B) (p q : M A) (w w' : World) :
  p w = q w' -> then_ f p w = then_ f q w'.
Proof. unfold then_. intros ->. reflexivity. Qed.

(** C5 (as the code has it).  With robots enabled, the robots text not
    cached, and its URL accepted by the queue: when the download of
    robots.txt fails, and not with a 500 while robotsIgnoreServerError is
    false, the error is swallowed; the page is requested next and the
    attempt goes on as that of a crawler with robots disabled.  When the
    download failed without an HTTP answer, the robots cache is left as
    it was. *)
Theorem C5_robots_failures_are_permissive
        (env : Env) (c : t) (url robotsUrl : string) (w : World) :
  _robotsEnabled c = true ->
  robots_url_of env url = Some robotsUrl ->
  robotsCache w !! robotsUrl = None ->
  urlList_insertIfNotExists env (Url_of robotsUrl) = None ->
  failed_permissively env c robotsUrl = true ->
  exists w',
    downloadPromise env c url w = _downloadUrl env url false w'
    /\ attempt env c url w = attempt env (without_robots c) url w'
    /\ requests (snd (downloadPromise env c url w))
       = requests w ++ [(robotsUrl, true); (url, false)]
    /\ (no_answer env robotsUrl = true -> robotsCache w' = robotsCache w).
Proof.
  intros Hen Hurl Hmiss Hins Hfail.
  exists (log_request robotsUrl true (log_inserted [Url_of robotsUrl] w)).
  assert (Hrob : exists e,
             _getOrDownloadRobots env c url w
             = (Rejected e, log_request robotsUrl true (log_inserted [Url_of robotsUrl] w))).
  { unfold _getOrDownloadRobots, _getRobotsUrl. rewrite Hurl, Hmiss.
    unfold then_, catch_, urlList_insert, _downloadUrl, resolve, reject, throw.
    rewrite Hins.
    unfold failed_permissively, robots_retrieval in Hfail.
    destruct (axios_get env robotsUrl true) as [m|[r|]]; simpl.
    - eexists. reflexivity.
    - destruct (400 <=? status r) eqn:H400; [|discriminate]. simpl.
      destruct (status r =? 500); simpl.
      + destruct (truthy (_robotsIgnoreServerError c)); [|discriminate].
        simpl. eexists. reflexivity.
      + eexists. reflexivity.
    - eexists. reflexivity. }
  destruct Hrob as [e Hrob].
  assert (Hd : downloadPromise env c url w
               = _downloadUrl env url false
                   (log_request robotsUrl true (log_inserted [Url_of robotsUrl] w))).
  { unfold downloadPromise. rewrite Hen.
    unfold _downloadAndCheckRobots, then_, catch_all, catch_.
    rewrite Hrob. unfold reject, resolve.
    destruct (ErrorClass_eqb (e_class e) RobotsNotAllowedError); simpl;
      apply in_callback_id, downloadUrl_returns_promise. }
  split; [exact Hd|]. split; [|split].
  - unfold attempt. do 2 apply then_same.
    apply (then_same (links_of_response env c url)). rewrite Hd.
    unfold downloadPromise. reflexivity.
  - rewrite Hd. unfold _downloadUrl.
    destruct (axios_get env url false) as [m|[r|]]; simpl;
      [| destruct (400 <=? status r); simpl |]; rewrite <- app_assoc; reflexivity.
  - intros _. reflexivity.
Qed.

Lemma C5_robots_failures_are_permissive_witness :
  let env := Samples.site 404 200 in
  let c := new None in
  let w := empty_world in
  _robotsEnabled c = true
  /\ robots_url_of env "http://a/p" = Some "http://a/robots.txt"
  /\ robotsCache w !! "http://a/robots.txt" = None
  /\ urlList_insertIfNotExists env (Url_of "http://a/robots.txt") = None
  /\ failed_permissively env c "http://a/robots.txt" = true
  /\ exists w',
      downloadPromise env c "http://a/p" w = _downloadUrl env "http://a/p" false w'
      /\ attempt env c "http://a/p" w = attempt env (without_robots c) "http://a/p" w'
      /\ requests (snd (downloadPromise env c "http://a/p" w))
         = requests w ++ [("http://a/robots.txt", true); ("http://a/p", false)]
      /\ (no_answer env "http://a/robots.txt" = true -> robotsCache w' = robotsCache w).
Proof.
  intros env c w.
  split; [reflexivity|]. split; [reflexivity|]. split; [reflexivity|].
  split; [reflexivity|]. split; [reflexivity|].
  apply (C5_robots_failures_are_permissive env c "http://a/p" "http://a/robots.txt" w);
    reflexivity.
Defined.

(** C5 as stated fails: when robots.txt cannot be reached the error is
    swallowed and the page is processed, but no robots text, empty or
    other, is put into the cache. *)
Lemma C5_counterexample :
  let r := _processUrl Samples.site_without_robots_answer (new None) "http://a/p" empty_world in
  axios_get Samples.site_without_robots_answer "http://a/robots.txt" true
  = AxiosRejects "connect ECONNREFUSED"
  /\ fst r = Fulfilled {| getUrl := "http://a/p"; getStatusCode := Some 200;
                          getErrorCode := None; getErrorMessage := None |}
  /\ robotsCache (snd r) !! "http://a/robots.txt" = None
  /\ robotsCache (snd r) !! "http://a/robots.txt" <> Some EmptyString.
Proof.
  split; [reflexivity|]. split; [vm_compute; reflexivity|].
  split; [vm_compute; reflexivity|]. vm_compute. discriminate.
Qed.

(** The two paths of the robots check that end otherwise than their
    handlers set out to.  With default options (robots enabled,
    robotsIgnoreServerError false) and a robots.txt that answers 500, the
    RobotsNotAllowedError is swallowed with the other errors: the page is
    requested and its outcome has errorCode null.  With a robots.txt that
    answers 404, the literal the HttpError handler resolves with has no
    data, the next callback throws, and nothing reaches the cache. *)
Lemma robots_http_failures_evaluated :
  let c := new None in
  let page_ok := {| getUrl := "http://a/p"; getStatusCode := Some 200;
                    getErrorCode := None; getErrorMessage := None |} in
  (_robotsEnabled c = true /\ truthy (_robotsIgnoreServerError c) = false)
  /\ (let r := _processUrl (Samples.site 500 200) c "http://a/p" empty_world in
      fst (_getOrDownloadRobots (Samples.site 500 200) c "http://a/p" empty_world)
      = Rejected (robots_not_crawled 500)
      /\ fst r = Fulfilled page_ok
      /\ requests (snd r) = [("http://a/robots.txt", true); ("http://a/p", false)])
  /\ (let r := _processUrl (Samples.site 404 200) c "http://a/p" empty_world in
      fst (_getOrDownloadRobots (Samples.site 404 200) c "http://a/p" empty_world)
      = Rejected undefined_toString
      /\ fst r = Fulfilled page_ok
      /\ robotsCache (snd r) !! "http://a/robots.txt" = None).
Proof.
  split; [split; reflexivity|].
  split; [split; [|split]; vm_compute; reflexivity|].
  split; [|split]; vm_compute; reflexivity.
Qed.

End ProcessFacts.

(* ------------------------------------------------------------------ *)
(** ** DbUrlList: insertion, outcomes and dequeues in sequence           *)
(* ------------------------------------------------------------------ *)

Section QueueFacts.

Import DbUrlList.






Lemma getUrlTable_calls_synced (syncs : list (option JsError)) :
  getUrlTable_calls syncs true = map (fun _ => (Fulfilled tt, false)) syncs.
Proof.
  induction syncs as [|sync syncs IH]; simpl; [reflexivity|].
  rewrite IH. reflexivity.
Qed.

(** X3.  On a new instance the first call of _getUrlTable calls sync and
    settles as sync does; every later call fulfils without calling sync,
    also when the first sync failed: a failed schema sync is not tried
    again. *)
Theorem X3_getUrlTable_syncs_once (sync : option JsError) (syncs : list (option JsError)) :
  getUrlTable_calls (sync :: syncs) false
  = (match sync with None => Fulfilled tt | Some e => Rejected e end, true)
      :: map (fun _ => (Fulfilled tt, false)) syncs.
Proof.
  simpl. rewrite getUrlTable_calls_synced. reflexivity.
Qed.




















End QueueFacts.

(* ------------------------------------------------------------------ *)
(** ** Crawler: start and the rescheduling of ticks                      *)
(* ------------------------------------------------------------------ *)

Section EngineFacts.

Import Crawler.

(** Ticks that all find the next allowed date ahead leave the crawler
    alone. *)
Lemma waiting_ticks_do_nothing (c : t) (inputs : list TickInput) :
  _started c = true ->
  forallb (fun i => is_later (_getNextRequestDate c (produced i) (clock_next i)) (clock_now i))
          inputs = true ->
  run_ticks c inputs = (c, []).
Proof.
  intros Hs. induction inputs as [|i inputs IH]; intros Hall; simpl; [reflexivity|].
  simpl in Hall. apply andb_true_iff in Hall. destruct Hall as [Hi Hall].
  unfold _crawlTick. rewrite Hs, Hi. simpl. rewrite (IH Hall). reflexivity.
Qed.

(** X8.  start() on a crawler that has sent no request yet starts one
    request, not concurrentRequestsLimit of them: with a limit n >= 1 and
    an interval iv, when the clock readings of the loop stay within iv of
    the first one, the first tick writes lastRequestDate and goes on to
    dequeue and the other n - 1 ticks reschedule themselves.  A second
    start() returns false and changes nothing. *)
Theorem X8_start_sends_one_request
        (c : t) (n iv : Z) (readings readings' : nat -> TickInput) :
  _started c = false ->
  _lastRequestDate c = None ->
  getConcurrentRequestsLimit c = JsNumber n ->
  1 <= n ->
  _interval c = JsNumber iv ->
  clock_next (readings 0%nat) <= clock_now (readings 0%nat) ->
  forallb (fun k => clock_now (readings k) - clock_now (readings 0%nat) <? iv)
          (seq 1 (Z.to_nat n - 1)) = true ->
  let c' := set_lastRequestDate (clock_now (readings 0%nat)) (set_started true c) in
  start c readings = Some (c', true, [clock_now (readings 0%nat)])
  /\ start c' readings' = Some (c', false, []).
Proof.
  intros Hs Hlast Hlim Hn Hiv Hclock Hwin c'.
  split; [|reflexivity].
  unfold start. rewrite Hs, Hlim. cbn [loop_count].
  destruct (Z.to_nat n) as [|m] eqn:Hm; [lia|].
  replace (S m - 1)%nat with m in Hwin by lia.
  cbn [seq map run_ticks].
  assert (Htick : _crawlTick (set_started true c) (readings 0%nat) = (c', Dequeuing)).
  { unfold _crawlTick, _getNextRequestDate. simpl. rewrite Hlast. simpl.
    destruct (0 <? clock_next (readings 0%nat) - clock_now (readings 0%nat)) eqn:Hl;
      [apply Z.ltb_lt in Hl; lia | reflexivity]. }
  rewrite Htick.
  rewrite (waiting_ticks_do_nothing c' (map readings (seq 1 m))); [reflexivity | reflexivity |].
  rewrite forallb_forall in *. intros i Hi. apply in_map_iff in Hi.
  destruct Hi as [k [<- Hk]]. specialize (Hwin k Hk). apply Z.ltb_lt in Hwin.
  unfold _getNextRequestDate, getInterval. simpl. rewrite Hiv. simpl.
  apply Z.ltb_lt. lia.
Qed.

Lemma X8_start_sends_one_request_witness :
  let c := new None in
  let readings (k : nat) := mkTick JsUndefined (5000 + Z.of_nat k) (5000 + Z.of_nat k) in
  let c' := set_lastRequestDate 5000 (set_started true c) in
  _started c = false
  /\ _lastRequestDate c = None
  /\ getConcurrentRequestsLimit c = JsNumber 5
  /\ 1 <= 5
  /\ _interval c = JsNumber 1000
  /\ clock_next (readings 0%nat) <= clock_now (readings 0%nat)
  /\ forallb (fun k => clock_now (readings k) - clock_now (readings 0%nat) <? 1000)
             (seq 1 (Z.to_nat 5 - 1)) = true
  /\ start c readings = Some (c', true, [5000])
  /\ start c' readings = Some (c', false, []).
Proof.
  intros c readings c'.
  split; [reflexivity|]. split; [reflexivity|]. split; [reflexivity|].
  split; [lia|]. split; [reflexivity|]. split; [simpl; lia|]. split; [reflexivity|].
  apply (X8_start_sends_one_request c 5 1000 readings readings);
    try reflexivity; simpl; lia.
Defined.

(** X9.  The delay _scheduleNextTick computes is never negative, and it
    is long enough: on a started crawler that no other chain has touched
    in between, a tick that runs when the delay has passed (and reads the
    same interval, from a clock that does not run backwards) is not
    rescheduled again but writes lastRequestDate and goes on to dequeue. *)
Theorem X9_rescheduled_tick_proceeds (c : t) (i j : TickInput) (delay : Z) :
  _started c = true ->
  _scheduleNextTick c i = Some delay ->
  getInterval c (produced j) = getInterval c (produced i) ->
  clock_next j <= clock_now j ->
  clock_now i + delay <= clock_now j ->
  0 <= delay
  /\ _crawlTick c j = (set_lastRequestDate (clock_now j) c, Dequeuing).
Proof.
  intros Hs Hd Hiv Hmono Hwait.
  unfold _scheduleNextTick in Hd. unfold _crawlTick. rewrite Hs. simpl.
  unfold _getNextRequestDate in *. rewrite Hiv.
  destruct (_lastRequestDate c) as [last|].
  - destruct (date_plus last (getInterval c (produced i))) as [next|]; [|discriminate].
    injection Hd as <-. split; [lia|]. simpl.
    destruct (0 <? next - clock_now j) eqn:Hl; [apply Z.ltb_lt in Hl; lia | reflexivity].
  - injection Hd as <-. split; [lia|]. simpl.
    destruct (0 <? clock_next j - clock_now j) eqn:Hl; [apply Z.ltb_lt in Hl; lia | reflexivity].
Qed.

Lemma X9_rescheduled_tick_proceeds_witness :
  let c := set_lastRequestDate 5000 (set_started true (new None)) in
  let i := mkTick JsUndefined 5300 5300 in
  let j := mkTick JsUndefined 6000 6000 in
  _started c = true
  /\ _scheduleNextTick c i = Some 700
  /\ getInterval c (produced j) = getInterval c (produced i)
  /\ clock_next j <= clock_now j
  /\ clock_now i + 700 <= clock_now j
  /\ 0 <= 700
  /\ _crawlTick c j = (set_lastRequestDate (clock_now j) c, Dequeuing).
Proof.
  intros c i j.
  split; [reflexivity|]. split; [reflexivity|]. split; [reflexivity|].
  split; [simpl; lia|]. split; [simpl; lia|].
  apply (X9_rescheduled_tick_proceeds c i j 700); try reflexivity; simpl; lia.
Defined.

End EngineFacts.

(* ------------------------------------------------------------------ *)
(** ** Crawler: what a tick does after it has dequeued                   *)
(* ------------------------------------------------------------------ *)

Section ContinuationFacts.

Import Crawler.


(** With robots enabled, a URL that [new URL] refuses makes _processUrl
    throw, after the crawlurl event. *)
Lemma processUrl_throws (env : Env) (c : t) (url : string) (w : World) :
  _robotsEnabled c = true ->
  robots_url_of env url = None ->
  _processUrl env c url w = (Thrown (invalid_url), emit (crawlurl url) w).
Proof.
  intros Hen Hurl.
  unfold _processUrl, attempt, downloadPromise. rewrite Hen.
  unfold then_, catch_all, catch_, _downloadAndCheckRobots, then_, _getOrDownloadRobots,
    _getRobotsUrl.
  rewrite Hurl. reflexivity.
Qed.



(** X11.  A tick that finds the list exhausted (getNextUrl rejects with a
    RangeError) emits urllistempty, and after it urllistcomplete exactly
    when no request is outstanding; it sends no request, records no
    outcome, fulfils and calls _scheduleNextTick once.  A rejection of any
    other class passes through, and the next tick is scheduled all the
    same. *)
Theorem X11_tick_on_exhausted_list (env : Env) (q : Queue) (s : Engine) (e : JsError) :
  urlList_getNextUrl q = Rejected e ->
  let r := crawl_continuation env q s in
  engine_world (snd r) = engine_world s
  /\ engine_crawler (snd r) = engine_crawler s
  /\ upserted (snd r) = upserted s
  /\ scheduled (snd r) = S (scheduled s)
  /\ (e_class e = RangeError ->
      fst r = Fulfilled tt
      /\ queue_events (snd r)
         = queue_events s ++
           (if _outstandingRequests (engine_crawler s) =? 0
            then [urllistempty; urllistcomplete] else [urllistempty]))
  /\ (e_class e <> RangeError ->
      fst r = Rejected e /\ queue_events (snd r) = queue_events s).
Proof.
  intros Hq r. subst r.
  unfold crawl_continuation, chain_finally, chain_catch, chain_then, queue_getNextUrl.
  rewrite Hq.
  destruct (ErrorClass_eqb (e_class e) RangeError) eqn:Hc; cbn -[Z.eqb].
  - assert (Hno : e_class e <> RangeError -> False).
    { intros Hne. apply Hne. destruct (e_class e); try discriminate. reflexivity. }
    destruct (_outstandingRequests (engine_crawler s) =? 0); cbn.
    + split; [reflexivity|]. split; [reflexivity|]. split; [reflexivity|].
      split; [reflexivity|]. split.
      * intros _. split; [reflexivity|]. rewrite <- app_assoc. reflexivity.
      * intros Hne. destruct (Hno Hne).
    + split; [reflexivity|]. split; [reflexivity|]. split; [reflexivity|].
      split; [reflexivity|]. split.
      * intros _. split; reflexivity.
      * intros Hne. destruct (Hno Hne).
  - split; [reflexivity|]. split; [reflexivity|]. split; [reflexivity|].
    split; [reflexivity|]. split.
    + intros Heq. rewrite Heq in Hc. discriminate.
    + intros _. split; reflexivity.
Qed.

Lemma X11_tick_on_exhausted_list_witness :
  let q := mkQueue (Rejected DbUrlList.exhausted) (fun _ => None) in
  let s := mkEngine (Samples.started (new None)) empty_world [] [] 0 in
  let r := crawl_continuation (Samples.site 200 200) q s in
  urlList_getNextUrl q = Rejected DbUrlList.exhausted
  /\ fst r = Fulfilled tt
  /\ queue_events (snd r) = [urllistempty; urllistcomplete].
Proof.
  intros q s r.
  split; [reflexivity|].
  apply (X11_tick_on_exhausted_list (Samples.site 200 200) q s DbUrlList.exhausted eq_refl).
  reflexivity.
Defined.

(** X12.  With robots enabled, a dequeued URL that [new URL] refuses makes
    _processUrl throw inside the dequeue callback, before the chain that
    carries the decrement exists: the continuation rejects with the
    TypeError, no outcome is recorded for the URL, _scheduleNextTick is
    still called once, and the count of outstanding requests stays one
    higher.  A later tick that finds the list exhausted then emits
    urllistempty but not urllistcomplete, although no request is in
    flight. *)
Theorem X12_invalid_url_leaves_request_outstanding
        (env : Env) (q q' : Queue) (s : Engine) (urlObj : Url) (e : JsError) :
  urlList_getNextUrl q = Fulfilled urlObj ->
  _robotsEnabled (engine_crawler s) = true ->
  robots_url_of env (getUrl urlObj) = None ->
  _outstandingRequests (engine_crawler s) = 0 ->
  urlList_getNextUrl q' = Rejected e ->
  e_class e = RangeError ->
  let r := crawl_continuation env q s in
  fst r = Rejected (invalid_url)
  /\ upserted (snd r) = upserted s
  /\ requests (engine_world (snd r)) = requests (engine_world s)
  /\ scheduled (snd r) = S (scheduled s)
  /\ _outstandingRequests (engine_crawler (snd r)) = 1
  /\ queue_events (snd (crawl_continuation env q' (snd r)))
     = queue_events s ++ [urllistempty].
Proof.
  intros Hq Hen Hurl Hout Hq' Hcls r. subst r.
  unfold crawl_continuation, chain_finally, chain_catch, chain_then, queue_getNextUrl,
    process.
  rewrite Hq, Hq', Hcls.
  rewrite (processUrl_throws env (engine_crawler (add_outstanding 1 s)) (getUrl urlObj)
             (engine_world (add_outstanding 1 s)) Hen Hurl).
  cbn -[Z.add Z.eqb]. rewrite Hout. cbn.
  repeat split; reflexivity.
Qed.

Lemma X12_invalid_url_leaves_request_outstanding_witness :
  let env := mkEnv (fun _ _ => AxiosRejects "unreachable") (fun _ => None)
                   (fun _ _ _ => true) (fun _ => None) (fun _ l => l) (fun _ => None) None in
  let q := mkQueue (Fulfilled (Url_of "not a url")) (fun _ => None) in
  let q' := mkQueue (Rejected DbUrlList.exhausted) (fun _ => None) in
  let s := mkEngine (Samples.started (new None)) empty_world [] [] 0 in
  let r := crawl_continuation env q s in
  fst r = Rejected (invalid_url)
  /\ upserted (snd r) = []
  /\ requests (engine_world (snd r)) = []
  /\ scheduled (snd r) = 1%nat
  /\ _outstandingRequests (engine_crawler (snd r)) = 1
  /\ queue_events (snd (crawl_continuation env q' (snd r))) = [] ++ [urllistempty].
Proof.
  intros env q q' s.
  apply (X12_invalid_url_leaves_request_outstanding env q q' s (Url_of "not a url")
           DbUrlList.exhausted); reflexivity.
Defined.

End ContinuationFacts.

(* ------------------------------------------------------------------ *)
(** ** Crawler: the robots check and its cache                           *)
(* ------------------------------------------------------------------ *)

Section RobotsFacts.

Import Crawler.

(** X13.  With robots enabled and a URL whose robots URL can be formed,
    the robots check never keeps the page from being requested: whatever
    the check ended with, a refusal by robots.txt included, the download
    of the page follows and the attempt goes on as that of a crawler with
    robots disabled.  When the robots text is in the cache the check
    changes nothing at all. *)
Theorem X13_robots_check_never_stops_the_download
        (env : Env) (c : t) (url robotsUrl : string) (w : World) :
  _robotsEnabled c = true ->
  robots_url_of env url = Some robotsUrl ->
  exists w',
    downloadPromise env c url w = _downloadUrl env url false w'
    /\ attempt env c url w = attempt env (without_robots c) url w'
    /\ (forall robotsTxt, robotsCache w !! robotsUrl = Some robotsTxt -> w' = w).
Proof.
  intros Hen Hurl.
  assert (Hatt : forall w', downloadPromise env c url w = _downloadUrl env url false w' ->
                            attempt env c url w = attempt env (without_robots c) url w').
  { intros w' Hd. unfold attempt. do 2 apply then_same.
    apply (then_same (links_of_response env c url)). rewrite Hd.
    unfold downloadPromise. reflexivity. }
  destruct (robotsCache w !! robotsUrl) as [robotsTxt|] eqn:Hcache.
  - exists w.
    assert (Hd : downloadPromise env c url w = _downloadUrl env url false w).
    { unfold downloadPromise. rewrite Hen.
      unfold _downloadAndCheckRobots, _getOrDownloadRobots, _getRobotsUrl,
        then_, catch_all, catch_.
      rewrite Hurl, Hcache. unfold reject, resolve.
      destruct (String.eqb robotsTxt EmptyString); simpl;
        [| destruct (robots_isAllowed env robotsUrl robotsTxt url); simpl ];
        apply in_callback_id, downloadUrl_returns_promise. }
    split; [exact Hd|]. split; [apply Hatt; exact Hd|]. intros _ _. reflexivity.
  - destruct (robots_check_never_blocks env c url w Hen) as [w' Hd].
    { rewrite Hurl. discriminate. }
    exists w'. split; [exact Hd|]. split; [apply Hatt; exact Hd|]. intros ? [=].
Qed.

Lemma X13_robots_check_never_stops_the_download_witness :
  let env := mkEnv (fun _ _ => AxiosResolves (Some (Samples.html_page 200)))
                   (fun _ => Some "http://a/robots.txt")
                   (fun _ _ _ => false) (fun _ => None) (fun _ l => l) (fun _ => None) None in
  let w := cache_set "http://a/robots.txt" "User-agent: * Disallow: /" empty_world in
  (_downloadAndCheckRobots env (new None) "http://a/private" w
   = (Rejected (robots_excluded "http://a/private"), w))
  /\ exists w',
      downloadPromise env (new None) "http://a/private" w
      = _downloadUrl env "http://a/private" false w'
      /\ attempt env (new None) "http://a/private" w
         = attempt env (without_robots (new None)) "http://a/private" w'
      /\ (forall robotsTxt,
             robotsCache w !! "http://a/robots.txt" = Some robotsTxt -> w' = w).
Proof.
  intros env w. split; [reflexivity|].
  apply (X13_robots_check_never_stops_the_download env (new None) "http://a/private"
           "http://a/robots.txt" w); reflexivity.
Defined.

(** X14.  A robots.txt that was downloaded is not downloaded again while
    its cache entry lasts: after _getOrDownloadRobots has fetched the text
    (the queue took the robots URL, the server answered below 400), the
    text is in the cache under the robots URL, and a further call, for any
    URL with the same robots URL, fulfils with the same text without a
    request, an insertion or any other change. *)
Theorem X14_robots_text_is_fetched_once
        (env : Env) (c : t) (url url' robotsUrl : string) (response : Response) (w : World) :
  robots_url_of env url = Some robotsUrl ->
  robots_url_of env url' = Some robotsUrl ->
  robotsCache w !! robotsUrl = None ->
  urlList_insertIfNotExists env (Url_of robotsUrl) = None ->
  axios_get env robotsUrl true = AxiosResolves (Some response) ->
  status response < 400 ->
  let w1 := cache_set robotsUrl (data response)
              (log_request robotsUrl true (log_inserted [Url_of robotsUrl] w)) in
  _getOrDownloadRobots env c url w = (Fulfilled (data response), w1)
  /\ _getOrDownloadRobots env c url' w1 = (Fulfilled (data response), w1).
Proof.
  intros Hurl Hurl' Hmiss Hins Hget Hst w1.
  assert (H400 : (400 <=? status response) = false) by (apply Z.leb_gt; exact Hst).
  split.
  - unfold _getOrDownloadRobots, _getRobotsUrl. rewrite Hurl, Hmiss.
    unfold then_, catch_, urlList_insert, _downloadUrl, resolve.
    rewrite Hins. simpl. rewrite Hget, H400. reflexivity.
  - unfold _getOrDownloadRobots, _getRobotsUrl. rewrite Hurl'.
    subst w1. unfold cache_set at 1. cbn [robotsCache].
    rewrite lookup_insert_eq. reflexivity.
Qed.

Lemma X14_robots_text_is_fetched_once_witness :
  let env := Samples.site 200 200 in
  let response := mkResponse 200 None None "oops" in
  let w1 := cache_set "http://a/robots.txt" "oops"
              (log_request "http://a/robots.txt" true
                 (log_inserted [Url_of "http://a/robots.txt"] empty_world)) in
  _getOrDownloadRobots env (new None) "http://a/p" empty_world = (Fulfilled "oops", w1)
  /\ _getOrDownloadRobots env (new None) "http://a/q" w1 = (Fulfilled "oops", w1).
Proof.
  intros env response w1.
  apply (X14_robots_text_is_fetched_once env (new None) "http://a/p" "http://a/q"
           "http://a/robots.txt" response empty_world); reflexivity.
Defined.

End RobotsFacts.

(* ------------------------------------------------------------------ *)
(** ** Crawler: a page's way through _processUrl                         *)
(* ------------------------------------------------------------------ *)

Section PageFacts.

Import Crawler.

(** The end of the chain after a fulfilled attempt. *)
Lemma processUrl_after_fulfilment (env : Env) (c : t) (url : string) (w w1 : World) (u : Url) :
  attempt env c url (emit (crawlurl url) w) = (Fulfilled u, w1) ->
  _processUrl env c url w = announce u w1.
Proof.
  intros Ha. unfold _processUrl, then_, catch_all, catch_. rewrite Ha. reflexivity.
Qed.





(** The attempt after the first callback has produced the links. *)
Lemma attempt_after_links (env : Env) (c : t) (url : string) (w0 w1 w2 w3 : World)
      (response : Response) (links : list string) :
  downloadPromise env c url w0 = (Fulfilled response, w1) ->
  in_callback (links_of_response env c url response w1) = (Fulfilled (response, links), w2) ->
  insert_links env links (emit (links_found url links) w2) = (Fulfilled tt, w3) ->
  attempt env c url w0
  = (Fulfilled (mkUrl url (Some (status response)) None None), w3).
Proof.
  intros Hd Hl Hins. unfold attempt, then_. rewrite Hd, Hl.
  unfold insert_discovered, then_. cbn [snd fst]. rewrite Hins. reflexivity.
Qed.

(** X16.  A response with a status from 300 to 399 and a Location header
    is not dispatched to any handler: the redirect event is emitted, the
    location resolved against the page's URL is the one link put into the
    queue, and the outcome carries the 3xx status with errorCode null. *)
Theorem X16_redirect_target_is_queued
        (env : Env) (c : t) (url location : string) (w w1 w3 : World) (response : Response) :
  downloadPromise env c url (emit (crawlurl url) w) = (Fulfilled response, w1) ->
  is_redirect response = true ->
  header_location response = Some location ->
  let target := url_resolve env url location in
  insert_links env [target] (emit (links_found url [target]) (emit (redirect url (Some location)) w1))
  = (Fulfilled tt, w3) ->
  _processUrl env c url w
  = (Fulfilled (mkUrl url (Some (status response)) None None),
     emit (crawledurl url None (Some (status response)) None) w3)
  /\ invoked w3 = invoked w1
  /\ inserted w3 = inserted w1 ++ [Url_of target]
  /\ emitted w3 = emitted w1 ++ [redirect url (Some location); links_found url [target]].
Proof.
  intros Hd Hred Hloc target Hins.
  split.
  - rewrite (processUrl_after_fulfilment env c url w w3
               (mkUrl url (Some (status response)) None None)); [reflexivity|].
    apply (attempt_after_links env c url _ w1
             (emit (redirect url (Some location)) w1) w3 response [target]);
      [exact Hd| |exact Hins].
    unfold links_of_response. unfold is_redirect in Hred. cbv zeta.
    rewrite Hred, Hloc. reflexivity.
  - unfold insert_links in Hins.
    destruct (urlList_insertIfNotExistsBulk env) as [bulk|].
    + destruct (bulk (map Url_of [target])); [discriminate|].
      injection Hins as <-. simpl. rewrite <- app_assoc. repeat split; reflexivity.
    + destruct (first_failure env (map Url_of [target])); [discriminate|].
      injection Hins as <-. simpl. rewrite <- app_assoc. repeat split; reflexivity.
Qed.

Lemma X16_redirect_target_is_queued_witness :
  let env := mkEnv (fun _ _ => AxiosResolves (Some (mkResponse 301 None (Some "/new") EmptyString)))
                   (fun _ => Some "http://a/robots.txt") (fun _ _ _ => true)
                   (fun _ => None) (fun _ l => "http://a" +:+ l) (fun _ => None) None in
  let c := without_robots Samples.two_handlers in
  let r := _processUrl env c "http://a/old" empty_world in
  fst r = Fulfilled (mkUrl "http://a/old" (Some 301) None None)
  /\ invoked (snd r) = []
  /\ inserted (snd r) = [Url_of "http://a/new"]
  /\ emitted (snd r)
     = [crawlurl "http://a/old"; redirect "http://a/old" (Some "/new");
        links_found "http://a/old" ["http://a/new"];
        crawledurl "http://a/old" None (Some 301) None].
Proof.
  intros env c r. subst r.
  destruct (X16_redirect_target_is_queued env c "http://a/old" "/new" empty_world
              (log_request "http://a/old" false (emit (crawlurl "http://a/old") empty_world))
              (log_inserted [Url_of "http://a/new"]
                 (emit (links_found "http://a/old" ["http://a/new"])
                    (emit (redirect "http://a/old" (Some "/new"))
                       (log_request "http://a/old" false
                          (emit (crawlurl "http://a/old") empty_world)))))
              (mkResponse 301 None (Some "/new") EmptyString)
              eq_refl eq_refl eq_refl eq_refl) as [Hp _].
  rewrite Hp. repeat split; reflexivity.
Defined.

End PageFacts.

(* ------------------------------------------------------------------ *)
(** ** Crawler: the events of one _processUrl                            *)
(* ------------------------------------------------------------------ *)

Section EventFacts.

Import Crawler.























End EventFacts.
